(** * Claims Management System: validation and transaction engine

    A shallow embedding of [SCMS_postgres.py] (class [ClaimsManagementSystem])
    and the properties of its validation rules and of its transaction
    discipline.

    Modelling conventions.
    - Python exceptions are the constructors of [exn]; a call that may raise
      returns a [result].
    - [datetime.date] and [datetime.datetime] values are the two constructors
      of [pydate]: a proleptic ordinal day, and for a date-with-time also the
      microseconds elapsed since midnight.  All values are naive (no time
      zone), as [datetime.datetime.now()] and [strptime] produce them.
    - Strings are ASCII strings; on them the pattern class [\d] is [0-9].
    - Amounts are exact decimals with two places, written as an integer
      number of hundredths (the columns are DECIMAL(10, 2)); the width of a
      column (VARCHAR(n), DECIMAL(10, 2)) is not modelled: values are taken
      to fit.
    - Identifiers are integers: the key columns are SERIAL (integer) and the
      store casts the textual identifier it receives.
    - The store is PostgreSQL reached through psycopg2.  Every call of
      [get_db_connection] opens a connection of its own; a connection sees
      the committed store and its own uncommitted writes, never the
      uncommitted writes of another connection; closing a connection without
      a commit discards its writes. *)

From stdpp Require Import gmap strings list fin_maps.
From Stdlib Require Import ZArith Ascii String Lia.

Local Open Scope Z_scope.

(** ** Exceptions and results *)

Inductive exn : Type :=
| ValidationError
| BusinessRuleViolation
| DatabaseError
| Psycopg2Error      (* psycopg2.Error, raised by a failing statement *)
| TypeError
| ValueError
| AttributeError.

Inductive result (A : Type) : Type :=
| Ok (a : A)
| Raise (e : exn).

Arguments Ok {A} a.
Arguments Raise {A} e.

#[global] Instance exn_eq_dec : EqDecision exn.
Proof. solve_decision. Defined.

Definition is_ok {A : Type} (r : result A) : bool :=
  match r with Ok _ => true | Raise _ => false end.

Definition result_bind {A B : Type} (r : result A) (k : A -> result B) : result B :=
  match r with
  | Ok a => k a
  | Raise e => Raise e
  end.

Declare Scope result_scope.
Delimit Scope result_scope with result.

Notation "'let*' x := c 'in' k" := (result_bind c (fun x => k))
  (at level 10, x name, c at level 100, k at level 200) : result_scope.

(** ** Dates: [datetime.date] and [datetime.datetime] *)

Definition us_per_day : Z := 86400000000.

Inductive pydate : Type :=
| Date (ordinal : Z)
| DateTime (ordinal : Z) (us : Z).

#[global] Instance pydate_eq_dec : EqDecision pydate.
Proof. solve_decision. Defined.

(** A date-with-time is well formed when its time of day is within the day. *)
Definition wf_pydate (d : pydate) : Prop :=
  match d with
  | Date _ => True
  | DateTime _ us => 0 <= us < us_per_day
  end.

(** [isinstance(d, datetime.datetime)] *)
Definition isinstance_datetime (d : pydate) : bool :=
  match d with Date _ => false | DateTime _ _ => true end.

(** The calendar day of a value: what [d.date()] keeps, and what a DATE
    column stores. *)
Definition ordinal_of (d : pydate) : Z :=
  match d with Date o => o | DateTime o _ => o end.

(** [d.date()] *)
Definition date_part (d : pydate) : pydate := Date (ordinal_of d).

(** [if isinstance(d, datetime.datetime): d = d.date()] *)
Definition normalize (d : pydate) : pydate :=
  if isinstance_datetime d then date_part d else d.

(** Microseconds since the origin, for a date-with-time. *)
Definition instant (o us : Z) : Z := o * us_per_day + us.

(** Ordering comparisons.  Python refuses to order a [date] against a
    [datetime] (TypeError). *)
Definition py_lt (a b : pydate) : result bool :=
  match a, b with
  | Date x, Date y => Ok (x <? y)
  | DateTime x t, DateTime y u => Ok (instant x t <? instant y u)
  | _, _ => Raise TypeError
  end.

Definition py_gt (a b : pydate) : result bool := py_lt b a.

Definition py_ge (a b : pydate) : result bool :=
  match a, b with
  | Date x, Date y => Ok (x >=? y)
  | DateTime x t, DateTime y u => Ok (instant x t >=? instant y u)
  | _, _ => Raise TypeError
  end.

(** [a - b]: a [timedelta], kept as its total number of microseconds. *)
Definition py_sub (a b : pydate) : result Z :=
  match a, b with
  | Date x, Date y => Ok ((x - y) * us_per_day)
  | DateTime x t, DateTime y u => Ok (instant x t - instant y u)
  | _, _ => Raise TypeError
  end.

(** [td.days]: timedeltas are normalised with a non-negative remainder, so
    this is the floor. *)
Definition days (td : Z) : Z := td / us_per_day.

(** ** Regular expressions: the fragment of [re] the validators use *)

Module Re.

Inductive regex : Type :=
| Void
| Eps
| Class (p : ascii -> bool)
| Cat (r s : regex)
| Alt (r s : regex)
| Star (r : regex).

(** Derived forms: [r+], [r?], [r{n}], [r{m,n}] (as [r{m}] followed by
    [n - m] optional copies). *)
Definition Plus (r : regex) : regex := Cat r (Star r).
Definition Opt (r : regex) : regex := Alt r Eps.

Fixpoint Rep (n : nat) (r : regex) : regex :=
  match n with
  | O => Eps
  | S n' => Cat r (Rep n' r)
  end.

Fixpoint RepOpt (n : nat) (r : regex) : regex :=
  match n with
  | O => Eps
  | S n' => Cat (Opt r) (RepOpt n' r)
  end.

Definition RepRange (m n : nat) (r : regex) : regex :=
  Cat (Rep m r) (RepOpt (n - m) r).

(** The words of a regular expression. *)
Inductive matches : regex -> list ascii -> Prop :=
| MEps : matches Eps []
| MClass p c : p c = true -> matches (Class p) [c]
| MCat r s u v : matches r u -> matches s v -> matches (Cat r s) (u ++ v)
| MAltL r s u : matches r u -> matches (Alt r s) u
| MAltR r s u : matches s u -> matches (Alt r s) u
| MStarNil r : matches (Star r) []
| MStarApp r u v : matches r u -> matches (Star r) v -> matches (Star r) (u ++ v).

Fixpoint nullable (r : regex) : bool :=
  match r with
  | Void => false
  | Eps => true
  | Class _ => false
  | Cat r s => nullable r && nullable s
  | Alt r s => nullable r || nullable s
  | Star _ => true
  end.

(** Constructors that absorb [Void] and [Eps], to keep derivatives small. *)
Definition cat (r s : regex) : regex :=
  match r, s with
  | Void, _ => Void
  | _, Void => Void
  | Eps, _ => s
  | _, Eps => r
  | _, _ => Cat r s
  end.

Definition alt (r s : regex) : regex :=
  match r, s with
  | Void, _ => s
  | _, Void => r
  | _, _ => Alt r s
  end.

(** Brzozowski derivative. *)
Fixpoint deriv (c : ascii) (r : regex) : regex :=
  match r with
  | Void => Void
  | Eps => Void
  | Class p => if p c then Eps else Void
  | Cat r s =>
      if nullable r then alt (cat (deriv c r) s) (deriv c s)
      else cat (deriv c r) s
  | Alt r s => alt (deriv c r) (deriv c s)
  | Star r => cat (deriv c r) (Star r)
  end.

(** Does some prefix of [w] match [r], with the rest accepted by [at_end]? *)
Fixpoint search_prefix (at_end : list ascii -> bool) (r : regex) (w : list ascii) : bool :=
  (nullable r && at_end w) ||
  match w with
  | [] => false
  | c :: w' => search_prefix at_end (deriv c r) w'
  end.

(** A compiled pattern: a body, possibly followed by the anchor [$].  A
    leading [^] changes nothing for [re.match], which only tries position 0. *)
Record pattern : Type := { body : regex; dollar : bool }.

(** [$] holds at the end of the string and just before a final newline. *)
Definition at_dollar (rest : list ascii) : bool :=
  match rest with
  | [] => true
  | [c] => Ascii.eqb c "010"%char
  | _ => false
  end.

Definition at_end_of (p : pattern) : list ascii -> bool :=
  if dollar p then at_dollar else fun _ => true.

(** [re.match(p, s) is not None] *)
Definition re_match (p : pattern) (s : string) : bool :=
  search_prefix (at_end_of p) (body p) (list_ascii_of_string s).

End Re.

(** ** Entity model *)

Inductive ClaimStatus : Type :=
| SUBMITTED
| UNDER_REVIEW
| APPROVED
| REJECTED
| CLOSED.

#[global] Instance ClaimStatus_eq_dec : EqDecision ClaimStatus.
Proof. solve_decision. Defined.

(** [status.value] *)
Definition ClaimStatus_value (s : ClaimStatus) : string :=
  match s with
  | SUBMITTED => "Submitted"
  | UNDER_REVIEW => "Under Review"
  | APPROVED => "Approved"
  | REJECTED => "Rejected"
  | CLOSED => "Closed"
  end.

(** [ClaimStatus(label)]: ValueError on a label of no member. *)
Definition ClaimStatus_of_value (label : string) : result ClaimStatus :=
  if String.eqb label "Submitted" then Ok SUBMITTED
  else if String.eqb label "Under Review" then Ok UNDER_REVIEW
  else if String.eqb label "Approved" then Ok APPROVED
  else if String.eqb label "Rejected" then Ok REJECTED
  else if String.eqb label "Closed" then Ok CLOSED
  else Raise ValueError.

Module Policyholder.
Record t : Type := {
  id : Z;
  name : string;
  contact_number : string;
  email : string;
  date_of_birth : pydate
}.
End Policyholder.

Module Policy.
Record t : Type := {
  id : Z;
  policyholder_id : Z;
  type : string;
  start_date : pydate;
  end_date : pydate;
  coverage_amount : Z;
  premium : Z
}.
End Policy.

Module Claim.
Record t : Type := {
  id : Z;
  policy_id : Z;
  date_of_incident : pydate;
  description : string;
  amount : Z;
  status : ClaimStatus;
  date_submitted : pydate
}.
End Claim.

(** ** The persistent store (schema of [init_db])

    A table is a finite map from its primary key [id] to the other columns.
    DATE columns hold a calendar day. *)

Module Stored.
Record policyholders : Type := {
  name : string;
  contact_number : string;
  email : string;             (* UNIQUE *)
  date_of_birth : Z
}.
Record policies : Type := {
  policyholder_id : Z;        (* REFERENCES policyholders(id) ON DELETE CASCADE *)
  type : string;
  start_date : Z;
  end_date : Z;
  coverage_amount : Z;
  premium : Z
}.
Record claims : Type := {
  policy_id : Z;              (* REFERENCES policies(id) ON DELETE CASCADE *)
  date_of_incident : Z;
  description : string;
  amount : Z;
  status : string;
  date_submitted : Z
}.
End Stored.

Record DB : Type := {
  policyholders : gmap Z Stored.policyholders;
  policies : gmap Z Stored.policies;
  claims : gmap Z Stored.claims
}.

Definition empty_db : DB :=
  {| policyholders := ∅; policies := ∅; claims := ∅ |}.

Definition set_policyholders (t : gmap Z Stored.policyholders) (db : DB) : DB :=
  {| policyholders := t; policies := policies db; claims := claims db |}.
Definition set_policies (t : gmap Z Stored.policies) (db : DB) : DB :=
  {| policyholders := policyholders db; policies := t; claims := claims db |}.
Definition set_claims (t : gmap Z Stored.claims) (db : DB) : DB :=
  {| policyholders := policyholders db; policies := policies db; claims := t |}.

(** ** Connections and transactions

    A public method is a function of the committed store ([World]).  The
    body of a unit of work runs on a connection ([Tx]): it reads and writes
    the connection's [view], which starts as the committed store and
    replaces it at commit; the [committed] store is what any other
    connection sees meanwhile. *)

Definition World (A : Type) : Type := DB -> result A * DB.

Record Conn : Type := { committed : DB; view : DB }.

Definition Tx (A : Type) : Type := Conn -> result A * Conn.

Definition tx_ret {A : Type} (a : A) : Tx A := fun c => (Ok a, c).

Definition tx_raise {A : Type} (e : exn) : Tx A := fun c => (Raise e, c).

Definition tx_bind {A B : Type} (m : Tx A) (k : A -> Tx B) : Tx B :=
  fun c =>
    match m c with
    | (Ok a, c') => k a c'
    | (Raise e, c') => (Raise e, c')
    end.

(** A computation that touches no store (a pure validator). *)
Definition tx_lift {A : Type} (r : result A) : Tx A := fun c => (r, c).

(** A public method called from inside a unit of work ([self.get_policy(...)]):
    it runs against the committed store, on a connection of its own. *)
Definition tx_call {A : Type} (w : World A) : Tx A :=
  fun c =>
    let (r, db') := w (committed c) in
    (r, {| committed := db'; view := view c |}).

Declare Scope tx_scope.
Delimit Scope tx_scope with tx.

Notation "'let!' x := c 'in' k" := (tx_bind c (fun x => k))
  (at level 10, x name, c at level 100, k at level 200) : tx_scope.

(** [_execute_transaction]: commit on success; on [psycopg2.Error] roll back
    and raise [DatabaseError]; any other exception leaves the [with] block
    without a commit, and [conn.close()] discards the writes. *)
Definition _execute_transaction {A : Type} (func : Tx A) : World A :=
  fun db =>
    match func {| committed := db; view := db |} with
    | (Ok a, c) => (Ok a, view c)
    | (Raise Psycopg2Error, c) => (Raise DatabaseError, committed c)
    | (Raise e, c) => (Raise e, committed c)
    end.

(** ** Statements ([cur.execute]) with the schema's key constraints

    A statement that violates PRIMARY KEY, UNIQUE or FOREIGN KEY raises
    [psycopg2.Error].  DATE columns keep the calendar day of the value
    they are given. *)

Definition select_policyholders (id : Z) : Tx (option Stored.policyholders) :=
  fun c => (Ok (policyholders (view c) !! id), c).

Definition select_policies (id : Z) : Tx (option Stored.policies) :=
  fun c => (Ok (policies (view c) !! id), c).

Definition select_claims (id : Z) : Tx (option Stored.claims) :=
  fun c => (Ok (claims (view c) !! id), c).

(** Is [e] the email of a row other than [id]? *)
Definition email_taken (e : string) (id : Z) (t : gmap Z Stored.policyholders) : bool :=
  bool_decide (map_Exists (fun k r => k ≠ id ∧ Stored.email r = e) t).

Definition write_view (db : DB) (c : Conn) : Conn :=
  {| committed := committed c; view := db |}.

Definition policyholder_row (p : Policyholder.t) : Stored.policyholders :=
  {| Stored.name := Policyholder.name p;
     Stored.contact_number := Policyholder.contact_number p;
     Stored.email := Policyholder.email p;
     Stored.date_of_birth := ordinal_of (Policyholder.date_of_birth p) |}.

Definition policy_row (p : Policy.t) : Stored.policies :=
  {| Stored.policyholder_id := Policy.policyholder_id p;
     Stored.type := Policy.type p;
     Stored.start_date := ordinal_of (Policy.start_date p);
     Stored.end_date := ordinal_of (Policy.end_date p);
     Stored.coverage_amount := Policy.coverage_amount p;
     Stored.premium := Policy.premium p |}.

(** The row of [claim_dict]: the status is stored as its label. *)
Definition claim_row (c : Claim.t) : Stored.claims :=
  {| Stored.policy_id := Claim.policy_id c;
     Stored.date_of_incident := ordinal_of (Claim.date_of_incident c);
     Stored.description := Claim.description c;
     Stored.amount := Claim.amount c;
     Stored.status := ClaimStatus_value (Claim.status c);
     Stored.date_submitted := ordinal_of (Claim.date_submitted c) |}.

(** Can the row be inserted under the key constraints? *)
Definition policyholders_insert_ok (id : Z) (r : Stored.policyholders) (db : DB) : bool :=
  bool_decide (policyholders db !! id = None) && negb (email_taken (Stored.email r) id (policyholders db)).

Definition policies_insert_ok (id : Z) (r : Stored.policies) (db : DB) : bool :=
  bool_decide (policies db !! id = None) &&
  bool_decide (is_Some (policyholders db !! Stored.policyholder_id r)).

Definition claims_insert_ok (id : Z) (r : Stored.claims) (db : DB) : bool :=
  bool_decide (claims db !! id = None) &&
  bool_decide (is_Some (policies db !! Stored.policy_id r)).

Definition insert_policyholders (id : Z) (r : Stored.policyholders) : Tx unit :=
  fun c =>
    if policyholders_insert_ok id r (view c)
    then (Ok tt, write_view (set_policyholders (<[id := r]> (policyholders (view c))) (view c)) c)
    else (Raise Psycopg2Error, c).

Definition insert_policies (id : Z) (r : Stored.policies) : Tx unit :=
  fun c =>
    if policies_insert_ok id r (view c)
    then (Ok tt, write_view (set_policies (<[id := r]> (policies (view c))) (view c)) c)
    else (Raise Psycopg2Error, c).

Definition insert_claims (id : Z) (r : Stored.claims) : Tx unit :=
  fun c =>
    if claims_insert_ok id r (view c)
    then (Ok tt, write_view (set_claims (<[id := r]> (claims (view c))) (view c)) c)
    else (Raise Psycopg2Error, c).

(** The entries of [update_fields] together with their [values]. *)
Inductive policyholders_set : Type :=
| Set_name (v : string)
| Set_contact_number (v : string)
| Set_email (v : string)
| Set_date_of_birth (v : pydate).

Inductive policies_set : Type :=
| Set_type (v : string)
| Set_start_date (v : pydate)
| Set_end_date (v : pydate)
| Set_coverage_amount (v : Z)
| Set_premium (v : Z).

Inductive claims_set : Type :=
| Set_description (v : string)
| Set_amount (v : Z)
| Set_status (v : string).

Definition assign_policyholders (r : Stored.policyholders) (a : policyholders_set) : Stored.policyholders :=
  match a with
  | Set_name v =>
      {| Stored.name := v; Stored.contact_number := Stored.contact_number r;
         Stored.email := Stored.email r; Stored.date_of_birth := Stored.date_of_birth r |}
  | Set_contact_number v =>
      {| Stored.name := Stored.name r; Stored.contact_number := v;
         Stored.email := Stored.email r; Stored.date_of_birth := Stored.date_of_birth r |}
  | Set_email v =>
      {| Stored.name := Stored.name r; Stored.contact_number := Stored.contact_number r;
         Stored.email := v; Stored.date_of_birth := Stored.date_of_birth r |}
  | Set_date_of_birth v =>
      {| Stored.name := Stored.name r; Stored.contact_number := Stored.contact_number r;
         Stored.email := Stored.email r; Stored.date_of_birth := ordinal_of v |}
  end.

Definition assign_policies (r : Stored.policies) (a : policies_set) : Stored.policies :=
  match a with
  | Set_type v =>
      {| Stored.policyholder_id := Stored.policyholder_id r; Stored.type := v;
         Stored.start_date := Stored.start_date r; Stored.end_date := Stored.end_date r;
         Stored.coverage_amount := Stored.coverage_amount r; Stored.premium := Stored.premium r |}
  | Set_start_date v =>
      {| Stored.policyholder_id := Stored.policyholder_id r; Stored.type := Stored.type r;
         Stored.start_date := ordinal_of v; Stored.end_date := Stored.end_date r;
         Stored.coverage_amount := Stored.coverage_amount r; Stored.premium := Stored.premium r |}
  | Set_end_date v =>
      {| Stored.policyholder_id := Stored.policyholder_id r; Stored.type := Stored.type r;
         Stored.start_date := Stored.start_date r; Stored.end_date := ordinal_of v;
         Stored.coverage_amount := Stored.coverage_amount r; Stored.premium := Stored.premium r |}
  | Set_coverage_amount v =>
      {| Stored.policyholder_id := Stored.policyholder_id r; Stored.type := Stored.type r;
         Stored.start_date := Stored.start_date r; Stored.end_date := Stored.end_date r;
         Stored.coverage_amount := v; Stored.premium := Stored.premium r |}
  | Set_premium v =>
      {| Stored.policyholder_id := Stored.policyholder_id r; Stored.type := Stored.type r;
         Stored.start_date := Stored.start_date r; Stored.end_date := Stored.end_date r;
         Stored.coverage_amount := Stored.coverage_amount r; Stored.premium := v |}
  end.

Definition assign_claims (r : Stored.claims) (a : claims_set) : Stored.claims :=
  match a with
  | Set_description v =>
      {| Stored.policy_id := Stored.policy_id r; Stored.date_of_incident := Stored.date_of_incident r;
         Stored.description := v; Stored.amount := Stored.amount r;
         Stored.status := Stored.status r; Stored.date_submitted := Stored.date_submitted r |}
  | Set_amount v =>
      {| Stored.policy_id := Stored.policy_id r; Stored.date_of_incident := Stored.date_of_incident r;
         Stored.description := Stored.description r; Stored.amount := v;
         Stored.status := Stored.status r; Stored.date_submitted := Stored.date_submitted r |}
  | Set_status v =>
      {| Stored.policy_id := Stored.policy_id r; Stored.date_of_incident := Stored.date_of_incident r;
         Stored.description := Stored.description r; Stored.amount := Stored.amount r;
         Stored.status := v; Stored.date_submitted := Stored.date_submitted r |}
  end.

(** [UPDATE policyholders SET ... WHERE id = ...]: no row, no change; the
    new email must not be that of another row. *)
Definition update_policyholders (id : Z) (fields : list policyholders_set) : Tx unit :=
  fun c =>
    match policyholders (view c) !! id with
    | None => (Ok tt, c)
    | Some r =>
        let r' := foldl assign_policyholders r fields in
        if email_taken (Stored.email r') id (policyholders (view c))
        then (Raise Psycopg2Error, c)
        else (Ok tt, write_view (set_policyholders (<[id := r']> (policyholders (view c))) (view c)) c)
    end.

Definition update_policies (id : Z) (fields : list policies_set) : Tx unit :=
  fun c =>
    match policies (view c) !! id with
    | None => (Ok tt, c)
    | Some r =>
        (Ok tt, write_view (set_policies (<[id := foldl assign_policies r fields]> (policies (view c))) (view c)) c)
    end.

Definition update_claims (id : Z) (fields : list claims_set) : Tx unit :=
  fun c =>
    match claims (view c) !! id with
    | None => (Ok tt, c)
    | Some r =>
        (Ok tt, write_view (set_claims (<[id := foldl assign_claims r fields]> (claims (view c))) (view c)) c)
    end.

(** The policies a policyholder owns, and the claims made on a set of
    policies: the rows ON DELETE CASCADE removes with their parent. *)
Definition policies_of (policyholder_id : Z) (t : gmap Z Stored.policies) : gmap Z Stored.policies :=
  filter (fun kr => Stored.policyholder_id kr.2 = policyholder_id) t.

Definition policies_not_of (policyholder_id : Z) (t : gmap Z Stored.policies) : gmap Z Stored.policies :=
  filter (fun kr => Stored.policyholder_id kr.2 ≠ policyholder_id) t.

Definition claims_not_on (gone : gmap Z Stored.policies) (t : gmap Z Stored.claims) : gmap Z Stored.claims :=
  filter (fun kr => gone !! Stored.policy_id kr.2 = None) t.

(** [DELETE FROM policyholders WHERE id = ...]; the result is [cur.rowcount]. *)
Definition delete_policyholders (id : Z) : Tx nat :=
  fun c =>
    let db := view c in
    match policyholders db !! id with
    | None => (Ok 0%nat, c)
    | Some _ =>
        (Ok 1%nat,
         write_view
           {| policyholders := delete id (policyholders db);
              policies := policies_not_of id (policies db);
              claims := claims_not_on (policies_of id (policies db)) (claims db) |} c)
    end.

Definition delete_policies (id : Z) : Tx nat :=
  fun c =>
    let db := view c in
    match policies db !! id with
    | None => (Ok 0%nat, c)
    | Some _ =>
        (Ok 1%nat,
         write_view
           {| policyholders := policyholders db;
              policies := delete id (policies db);
              claims := filter (fun kr => Stored.policy_id kr.2 ≠ id) (claims db) |} c)
    end.

Definition delete_claims (id : Z) : Tx nat :=
  fun c =>
    let db := view c in
    match claims db !! id with
    | None => (Ok 0%nat, c)
    | Some _ => (Ok 1%nat, write_view (set_claims (delete id (claims db)) db) c)
    end.

(** ** Validation methods *)

Definition is_char (a : ascii) : ascii -> bool := Ascii.eqb a.
Definition not_at : ascii -> bool := fun c => negb (Ascii.eqb c "@"%char).
Definition digit : ascii -> bool :=
  fun c => (N.leb 48 (N_of_ascii c) && N.leb (N_of_ascii c) 57)%bool.

(** [r"[^@]+@[^@]+\.[^@]+"] *)
Definition email_pattern : Re.pattern :=
  {| Re.body :=
       Re.Cat (Re.Plus (Re.Class not_at))
      (Re.Cat (Re.Class (is_char "@"))
      (Re.Cat (Re.Plus (Re.Class not_at))
      (Re.Cat (Re.Class (is_char "."))
              (Re.Plus (Re.Class not_at)))));
     Re.dollar := false |}.

(** [r"^\+?1?\d{9,15}$"] *)
Definition phone_pattern : Re.pattern :=
  {| Re.body :=
       Re.Cat (Re.Opt (Re.Class (is_char "+")))
      (Re.Cat (Re.Opt (Re.Class (is_char "1")))
              (Re.RepRange 9 15 (Re.Class digit)));
     Re.dollar := true |}.

Definition _validate_email (email : string) : result unit :=
  if Re.re_match email_pattern email then Ok tt else Raise ValidationError.

Definition _validate_phone_number (phone : string) : result unit :=
  if Re.re_match phone_pattern phone then Ok tt else Raise ValidationError.

(** [now] is the reading of [datetime.datetime.now()]; the two readings the
    method takes are the same instant. *)
Definition _validate_date_of_birth (now : pydate) (date_of_birth : pydate) : result unit :=
  (let* future := py_gt date_of_birth now in
   if (future : bool) then Raise ValidationError
   else
     let* age := py_sub now date_of_birth in
     if days age <? 18 * 365 then Raise BusinessRuleViolation else Ok tt)%result.

Definition _validate_policyholder (now : pydate) (policyholder : Policyholder.t) : result unit :=
  (let* _ := _validate_email (Policyholder.email policyholder) in
   let* _ := _validate_phone_number (Policyholder.contact_number policyholder) in
   _validate_date_of_birth now (Policyholder.date_of_birth policyholder))%result.

Definition with_start_date (policy : Policy.t) (d : pydate) : Policy.t :=
  {| Policy.id := Policy.id policy;
     Policy.policyholder_id := Policy.policyholder_id policy;
     Policy.type := Policy.type policy;
     Policy.start_date := d;
     Policy.end_date := Policy.end_date policy;
     Policy.coverage_amount := Policy.coverage_amount policy;
     Policy.premium := Policy.premium policy |}.

(** The method assigns to [policy.start_date]; the policy it leaves behind
    is the result. *)
Definition _validate_policy (policy : Policy.t) : Tx Policy.t :=
  (let! policyholder := select_policyholders (Policy.policyholder_id policy) in
   match policyholder with
   | None => tx_raise ValidationError
   | Some policyholder =>
       let! not_before := tx_lift (py_ge (Policy.start_date policy) (Policy.end_date policy)) in
       if (not_before : bool) then tx_raise ValidationError
       else if Policy.coverage_amount policy <=? 0 then tx_raise ValidationError
       else if Policy.premium policy <=? 0 then tx_raise ValidationError
       else
         let policyholder_dob := normalize (Date (Stored.date_of_birth policyholder)) in
         let policy := with_start_date policy (normalize (Policy.start_date policy)) in
         let! age := tx_lift (py_sub (Policy.start_date policy) policyholder_dob) in
         if days age <? 18 * 365 then tx_raise BusinessRuleViolation
         else tx_ret policy
   end)%tx.

Definition with_dates (claim : Claim.t) (incident submitted : pydate) : Claim.t :=
  {| Claim.id := Claim.id claim;
     Claim.policy_id := Claim.policy_id claim;
     Claim.date_of_incident := incident;
     Claim.description := Claim.description claim;
     Claim.amount := Claim.amount claim;
     Claim.status := Claim.status claim;
     Claim.date_submitted := submitted |}.

(** The method assigns to [claim.date_of_incident] and
    [claim.date_submitted]; the claim it leaves behind is the result. *)
Definition _validate_claim (claim : Claim.t) : Tx Claim.t :=
  (let! policy := select_policies (Claim.policy_id claim) in
   match policy with
   | None => tx_raise ValidationError
   | Some policy =>
       let policy_sd := normalize (Date (Stored.start_date policy)) in
       let policy_ed := normalize (Date (Stored.end_date policy)) in
       let policy_ca := Stored.coverage_amount policy in
       let claim := with_dates claim (normalize (Claim.date_of_incident claim))
                                     (normalize (Claim.date_submitted claim)) in
       let! before := tx_lift (py_lt (Claim.date_of_incident claim) policy_sd) in
       let! after := tx_lift (if (before : bool) then Ok true
                              else py_gt (Claim.date_of_incident claim) policy_ed) in
       if (after : bool) then tx_raise ValidationError
       else if (Claim.amount claim <=? 0) || (Claim.amount claim >? policy_ca)
       then tx_raise ValidationError
       else
         let! early := tx_lift (py_lt (Claim.date_submitted claim) (Claim.date_of_incident claim)) in
         if (early : bool) then tx_raise ValidationError
         else
           let! delay := tx_lift (py_sub (Claim.date_submitted claim) (Claim.date_of_incident claim)) in
           if days delay >? 30 then tx_raise BusinessRuleViolation
           else tx_ret claim
   end)%tx.

(** ** Repository operations *)

(** [if value:] on an [Optional[str]]: neither [None] nor the empty string. *)
Definition supplied (value : option string) : option string :=
  match value with
  | Some EmptyString => None
  | Some v => Some v
  | None => None
  end.

(** *** Policyholder *)

Definition create_policyholder (now : pydate) (policyholder : Policyholder.t) : World unit :=
  _execute_transaction
    (let! _ := tx_lift (_validate_policyholder now policyholder) in
     insert_policyholders (Policyholder.id policyholder) (policyholder_row policyholder))%tx.

(** The [Policyholder] built from the fetched row. *)
Definition Policyholder_of_row (id : Z) (r : Stored.policyholders) : Policyholder.t :=
  {| Policyholder.id := id;
     Policyholder.name := Stored.name r;
     Policyholder.contact_number := Stored.contact_number r;
     Policyholder.email := Stored.email r;
     Policyholder.date_of_birth := Date (Stored.date_of_birth r) |}.

Definition get_policyholder (policyholder_id : Z) : World (option Policyholder.t) :=
  _execute_transaction
    (let! result := select_policyholders policyholder_id in
     tx_ret (Policyholder_of_row policyholder_id <$> result))%tx.

Definition update_policyholder (now : pydate) (policyholder_id : Z)
    (name contact_number email : option string) (date_of_birth : option pydate) : World unit :=
  _execute_transaction
    (let! policyholder := tx_call (get_policyholder policyholder_id) in
     match policyholder with
     | None => tx_raise ValidationError
     | Some _ =>
         let update_fields := [] in
         let update_fields :=
           match supplied name with
           | Some v => update_fields ++ [Set_name v]
           | None => update_fields
           end in
         let! update_fields :=
           match supplied contact_number with
           | Some v =>
               let! _ := tx_lift (_validate_phone_number v) in
               tx_ret (update_fields ++ [Set_contact_number v])
           | None => tx_ret update_fields
           end in
         let! update_fields :=
           match supplied email with
           | Some v =>
               let! _ := tx_lift (_validate_email v) in
               tx_ret (update_fields ++ [Set_email v])
           | None => tx_ret update_fields
           end in
         let! update_fields :=
           match date_of_birth with
           | Some v =>
               let! _ := tx_lift (_validate_date_of_birth now v) in
               tx_ret (update_fields ++ [Set_date_of_birth v])
           | None => tx_ret update_fields
           end in
         match update_fields with
         | [] => tx_ret tt
         | _ :: _ => update_policyholders policyholder_id update_fields
         end
     end)%tx.

Definition delete_policyholder (policyholder_id : Z) : World unit :=
  _execute_transaction
    (let! rowcount := delete_policyholders policyholder_id in
     if Nat.eqb rowcount 0 then tx_raise ValidationError else tx_ret tt)%tx.

(** *** Policy *)

Definition create_policy (policy : Policy.t) : World unit :=
  _execute_transaction
    (let! policy := _validate_policy policy in
     insert_policies (Policy.id policy) (policy_row policy))%tx.

(** The [Policy] built from the fetched row. *)
Definition Policy_of_row (id : Z) (r : Stored.policies) : Policy.t :=
  {| Policy.id := id;
     Policy.policyholder_id := Stored.policyholder_id r;
     Policy.type := Stored.type r;
     Policy.start_date := Date (Stored.start_date r);
     Policy.end_date := Date (Stored.end_date r);
     Policy.coverage_amount := Stored.coverage_amount r;
     Policy.premium := Stored.premium r |}.

Definition get_policy (policy_id : Z) : World (option Policy.t) :=
  _execute_transaction
    (let! result := select_policies policy_id in
     tx_ret (Policy_of_row policy_id <$> result))%tx.

(** [_validate_policy(cur, updated_policy)] on what [get_policy] returned;
    on [None] the attribute access raises. *)
Definition revalidate_policy (updated_policy : option Policy.t) : Tx unit :=
  match updated_policy with
  | Some p => (let! _ := _validate_policy p in tx_ret tt)%tx
  | None => tx_raise AttributeError
  end.

Definition update_policy (policy_id : Z) (type : option string)
    (start_date end_date : option pydate) (coverage_amount premium : option Z) : World unit :=
  _execute_transaction
    (let! policy := tx_call (get_policy policy_id) in
     match policy with
     | None => tx_raise ValidationError
     | Some _ =>
         let update_fields := [] in
         let update_fields :=
           match supplied type with
           | Some v => update_fields ++ [Set_type v]
           | None => update_fields
           end in
         let update_fields :=
           match start_date with
           | Some v => update_fields ++ [Set_start_date v]
           | None => update_fields
           end in
         let update_fields :=
           match end_date with
           | Some v => update_fields ++ [Set_end_date v]
           | None => update_fields
           end in
         let update_fields :=
           match coverage_amount with
           | Some v => update_fields ++ [Set_coverage_amount v]
           | None => update_fields
           end in
         let update_fields :=
           match premium with
           | Some v => update_fields ++ [Set_premium v]
           | None => update_fields
           end in
         let! _ :=
           match update_fields with
           | [] => tx_ret tt
           | _ :: _ => update_policies policy_id update_fields
           end in
         let! updated_policy := tx_call (get_policy policy_id) in
         revalidate_policy updated_policy
     end)%tx.

Definition delete_policy (policy_id : Z) : World unit :=
  _execute_transaction
    (let! rowcount := delete_policies policy_id in
     if Nat.eqb rowcount 0 then tx_raise ValidationError else tx_ret tt)%tx.

(** *** Claim *)

Definition create_claim (claim : Claim.t) : World unit :=
  _execute_transaction
    (let! claim := _validate_claim claim in
     insert_claims (Claim.id claim) (claim_row claim))%tx.

(** [result['status'] = ClaimStatus(result['status'])], then the [Claim]
    built from the fetched row. *)
Definition Claim_of_row (id : Z) (r : Stored.claims) : result Claim.t :=
  (let* status := ClaimStatus_of_value (Stored.status r) in
   Ok {| Claim.id := id;
         Claim.policy_id := Stored.policy_id r;
         Claim.date_of_incident := Date (Stored.date_of_incident r);
         Claim.description := Stored.description r;
         Claim.amount := Stored.amount r;
         Claim.status := status;
         Claim.date_submitted := Date (Stored.date_submitted r) |})%result.

Definition get_claim (claim_id : Z) : World (option Claim.t) :=
  _execute_transaction
    (let! result := select_claims claim_id in
     match result with
     | Some r => let! claim := tx_lift (Claim_of_row claim_id r) in tx_ret (Some claim)
     | None => tx_ret None
     end)%tx.

Definition revalidate_claim (updated_claim : option Claim.t) : Tx unit :=
  match updated_claim with
  | Some c => (let! _ := _validate_claim c in tx_ret tt)%tx
  | None => tx_raise AttributeError
  end.

Definition update_claim (claim_id : Z) (description : option string)
    (amount : option Z) (status : option ClaimStatus) : World unit :=
  _execute_transaction
    (let! claim := tx_call (get_claim claim_id) in
     match claim with
     | None => tx_raise ValidationError
     | Some _ =>
         let update_fields := [] in
         let update_fields :=
           match supplied description with
           | Some v => update_fields ++ [Set_description v]
           | None => update_fields
           end in
         let update_fields :=
           match amount with
           | Some v => update_fields ++ [Set_amount v]
           | None => update_fields
           end in
         let update_fields :=
           match status with
           | Some v => update_fields ++ [Set_status (ClaimStatus_value v)]
           | None => update_fields
           end in
         let! _ :=
           match update_fields with
           | [] => tx_ret tt
           | _ :: _ => update_claims claim_id update_fields
           end in
         let! updated_claim := tx_call (get_claim claim_id) in
         revalidate_claim updated_claim
     end)%tx.

Definition delete_claim (claim_id : Z) : World unit :=
  _execute_transaction
    (let! rowcount := delete_claims claim_id in
     if Nat.eqb rowcount 0 then tx_raise ValidationError else tx_ret tt)%tx.

(** *** Listings

    [cur.fetchall()] yields the rows of the table as dictionaries, in the
    order the store chooses; a row is paired here with its [id].  An empty
    listing is reported as [None]. *)

Definition select_all_policyholders : Tx (list (Z * Stored.policyholders)) :=
  fun c => (Ok (map_to_list (policyholders (view c))), c).

Definition select_all_policies : Tx (list (Z * Stored.policies)) :=
  fun c => (Ok (map_to_list (policies (view c))), c).

Definition select_all_claims : Tx (list (Z * Stored.claims)) :=
  fun c => (Ok (map_to_list (claims (view c))), c).

Definition getAll_policyholder : World (option (list (Z * Stored.policyholders))) :=
  _execute_transaction
    (let! result := select_all_policyholders in
     match result with
     | _ :: _ => tx_ret (Some result)
     | [] => tx_ret None
     end)%tx.

Definition getAll_policy : World (option (list (Z * Stored.policies))) :=
  _execute_transaction
    (let! result := select_all_policies in
     match result with
     | _ :: _ => tx_ret (Some result)
     | [] => tx_ret None
     end)%tx.

Definition getAll_claim : World (option (list (Z * Stored.claims))) :=
  _execute_transaction
    (let! result := select_all_claims in
     match result with
     | _ :: _ => tx_ret (Some result)
     | [] => tx_ret None
     end)%tx.

(** * Specification vocabulary *)

(** The outcome of a call as the caller sees it: accepted, or the kind of
    the exception. *)
Definition outcome {A : Type} (r : result A) : option exn :=
  match r with Ok _ => None | Raise e => Some e end.

(** A unit of work that leaves the committed store alone until it commits:
    true of every statement and of the nested reads. *)
Definition keeps_committed {A : Type} (m : Tx A) : Prop :=
  ∀ c, committed (m c).2 = committed c.

(** ** Admissibility, as the rules are worded

    The comparisons of dates are Python's; the age and the delay are counted
    in whole days. *)

Definition policyholder_admissible (now : pydate) (p : Policyholder.t) : Prop :=
  Re.re_match email_pattern (Policyholder.email p) = true ∧
  Re.re_match phone_pattern (Policyholder.contact_number p) = true ∧
  ∃ age, py_sub now (Policyholder.date_of_birth p) = Ok age ∧ 18 * 365 <= days age.

Definition policy_admissible (db : DB) (p : Policy.t) : Prop :=
  ∃ h, policyholders db !! Policy.policyholder_id p = Some h ∧
    py_lt (Policy.start_date p) (Policy.end_date p) = Ok true ∧
    0 < Policy.coverage_amount p ∧
    0 < Policy.premium p ∧
    18 * 365 <= ordinal_of (Policy.start_date p) - Stored.date_of_birth h.

Definition claim_admissible (db : DB) (c : Claim.t) : Prop :=
  ∃ pol, policies db !! Claim.policy_id c = Some pol ∧
    Stored.start_date pol <= ordinal_of (Claim.date_of_incident c) <= Stored.end_date pol ∧
    0 < Claim.amount c <= Stored.coverage_amount pol ∧
    ordinal_of (Claim.date_of_incident c) <= ordinal_of (Claim.date_submitted c) ∧
    ordinal_of (Claim.date_submitted c) - ordinal_of (Claim.date_of_incident c) <= 30.

(** No stored policyholder has the identifier or the email of [p]. *)
Definition policyholder_unused (db : DB) (p : Policyholder.t) : Prop :=
  policyholders db !! Policyholder.id p = None ∧
  ∀ k r, policyholders db !! k = Some r → Stored.email r ≠ Policyholder.email p.

(** The claim [_validate_claim] leaves behind: both dates date-only. *)
Definition normalized_claim (c : Claim.t) : Claim.t :=
  with_dates c (Date (ordinal_of (Claim.date_of_incident c)))
               (Date (ordinal_of (Claim.date_submitted c))).

(** ** Rejections, by kind

    The rejections that are Validation Errors (malformed or out-of-range
    values, missing references) and those that are Business Rule
    Violations (age, lateness), as conditions on the input. *)

Definition policyholder_malformed (now : pydate) (p : Policyholder.t) : Prop :=
  Re.re_match email_pattern (Policyholder.email p) = false ∨
  Re.re_match phone_pattern (Policyholder.contact_number p) = false ∨
  py_gt (Policyholder.date_of_birth p) now = Ok true.

Definition policyholder_underage (now : pydate) (p : Policyholder.t) : Prop :=
  ∃ age, py_sub now (Policyholder.date_of_birth p) = Ok age ∧ days age < 18 * 365.

Definition policy_malformed (db : DB) (p : Policy.t) : Prop :=
  policyholders db !! Policy.policyholder_id p = None ∨
  py_ge (Policy.start_date p) (Policy.end_date p) = Ok true ∨
  Policy.coverage_amount p <= 0 ∨
  Policy.premium p <= 0.

Definition policy_underage (db : DB) (p : Policy.t) : Prop :=
  ∃ h, policyholders db !! Policy.policyholder_id p = Some h ∧
    ordinal_of (Policy.start_date p) - Stored.date_of_birth h < 18 * 365.

Definition claim_malformed (db : DB) (c : Claim.t) : Prop :=
  policies db !! Claim.policy_id c = None ∨
  ∃ pol, policies db !! Claim.policy_id c = Some pol ∧
    (ordinal_of (Claim.date_of_incident c) < Stored.start_date pol ∨
     Stored.end_date pol < ordinal_of (Claim.date_of_incident c) ∨
     Claim.amount c <= 0 ∨
     Stored.coverage_amount pol < Claim.amount c ∨
     ordinal_of (Claim.date_submitted c) < ordinal_of (Claim.date_of_incident c)).

Definition claim_late (c : Claim.t) : Prop :=
  30 < ordinal_of (Claim.date_submitted c) - ordinal_of (Claim.date_of_incident c).

(** ** Values that differ in the time of day only *)

Definition same_day (a b : pydate) : Prop :=
  a = b ∨
  (isinstance_datetime a = true ∧ isinstance_datetime b = true ∧ ordinal_of a = ordinal_of b).

Definition with_period (policy : Policy.t) (start_date end_date : pydate) : Policy.t :=
  {| Policy.id := Policy.id policy;
     Policy.policyholder_id := Policy.policyholder_id policy;
     Policy.type := Policy.type policy;
     Policy.start_date := start_date;
     Policy.end_date := end_date;
     Policy.coverage_amount := Policy.coverage_amount policy;
     Policy.premium := Policy.premium policy |}.

Definition with_date_of_birth (p : Policyholder.t) (d : pydate) : Policyholder.t :=
  {| Policyholder.id := Policyholder.id p;
     Policyholder.name := Policyholder.name p;
     Policyholder.contact_number := Policyholder.contact_number p;
     Policyholder.email := Policyholder.email p;
     Policyholder.date_of_birth := d |}.

(** ** Partial updates

    The [update_fields] each update method builds from its arguments, and
    the store its UPDATE statement leaves in the connection's view. *)

Definition policyholder_update_fields (name contact_number email : option string)
    (date_of_birth : option pydate) : list policyholders_set :=
  match supplied name with Some v => [Set_name v] | None => [] end ++
  match supplied contact_number with Some v => [Set_contact_number v] | None => [] end ++
  match supplied email with Some v => [Set_email v] | None => [] end ++
  match date_of_birth with Some v => [Set_date_of_birth v] | None => [] end.

Definition policy_update_fields (type : option string) (start_date end_date : option pydate)
    (coverage_amount premium : option Z) : list policies_set :=
  match supplied type with Some v => [Set_type v] | None => [] end ++
  match start_date with Some v => [Set_start_date v] | None => [] end ++
  match end_date with Some v => [Set_end_date v] | None => [] end ++
  match coverage_amount with Some v => [Set_coverage_amount v] | None => [] end ++
  match premium with Some v => [Set_premium v] | None => [] end.

Definition claim_update_fields (description : option string) (amount : option Z)
    (status : option ClaimStatus) : list claims_set :=
  match supplied description with Some v => [Set_description v] | None => [] end ++
  match amount with Some v => [Set_amount v] | None => [] end ++
  match status with Some v => [Set_status (ClaimStatus_value v)] | None => [] end.

Definition policyholder_written (id : Z) (r : Stored.policyholders)
    (fields : list policyholders_set) (db : DB) : DB :=
  match fields with
  | [] => db
  | _ :: _ => set_policyholders (<[id := foldl assign_policyholders r fields]> (policyholders db)) db
  end.

Definition policy_written (id : Z) (r : Stored.policies)
    (fields : list policies_set) (db : DB) : DB :=
  match fields with
  | [] => db
  | _ :: _ => set_policies (<[id := foldl assign_policies r fields]> (policies db)) db
  end.

Definition claim_written (id : Z) (r : Stored.claims)
    (fields : list claims_set) (db : DB) : DB :=
  match fields with
  | [] => db
  | _ :: _ => set_claims (<[id := foldl assign_claims r fields]> (claims db)) db
  end.

(** The checks [update_policyholder] runs on the supplied fields. *)
Definition policyholder_fields_check (now : pydate) (contact_number email : option string)
    (date_of_birth : option pydate) : result unit :=
  (let* _ := match supplied contact_number with
             | Some v => _validate_phone_number v
             | None => Ok tt
             end in
   let* _ := match supplied email with
             | Some v => _validate_email v
             | None => Ok tt
             end in
   match date_of_birth with
   | Some v => _validate_date_of_birth now v
   | None => Ok tt
   end)%result.

(** A fresh connection on [db]. *)
Definition connect (db : DB) : Conn := {| committed := db; view := db |}.

(** ** Consistency of the store

    What the key constraints of the schema keep true of the tables, and what
    the writes of this program keep true of the status column. *)

Definition references_hold (db : DB) : Prop :=
  (∀ pid p, policies db !! pid = Some p →
     is_Some (policyholders db !! Stored.policyholder_id p)) ∧
  (∀ cid c, claims db !! cid = Some c →
     is_Some (policies db !! Stored.policy_id c)).

Definition emails_unique (db : DB) : Prop :=
  ∀ i j r s, policyholders db !! i = Some r → policyholders db !! j = Some s →
    Stored.email r = Stored.email s → i = j.

Definition statuses_known (db : DB) : Prop :=
  ∀ cid c, claims db !! cid = Some c → ∃ s, Stored.status c = ClaimStatus_value s.

(** The characters of a string. *)
Definition chars (s : string) : list ascii := list_ascii_of_string s.

(** A non-empty run of characters other than [@]. *)
Definition at_free (w : list ascii) : Prop :=
  w ≠ [] ∧ Forall (fun c => c ≠ "@"%char) w.

(** The record as it is read back: dates keep their calendar day only. *)
Definition stored_policyholder (p : Policyholder.t) : Policyholder.t :=
  with_date_of_birth p (Date (ordinal_of (Policyholder.date_of_birth p))).

Definition stored_policy (p : Policy.t) : Policy.t :=
  with_period p (Date (ordinal_of (Policy.start_date p)))
                (Date (ordinal_of (Policy.end_date p))).

Definition with_status (claim : Claim.t) (status : ClaimStatus) : Claim.t :=
  {| Claim.id := Claim.id claim;
     Claim.policy_id := Claim.policy_id claim;
     Claim.date_of_incident := Claim.date_of_incident claim;
     Claim.description := Claim.description claim;
     Claim.amount := Claim.amount claim;
     Claim.status := status;
     Claim.date_submitted := Claim.date_submitted claim |}.

(** ** A sample store

    One policyholder (born 1990-01-01, day 726468), one policy on her
    (2020-01-01 to 2020-12-31, days 737425 to 737790, coverage 10000.00) and
    one claim on it (incident 2020-03-01, submitted 2020-03-10). *)

Definition ann : Policyholder.t :=
  {| Policyholder.id := 1;
     Policyholder.name := "Ann Lee";
     Policyholder.contact_number := "+14155550123";
     Policyholder.email := "ann@example.org";
     Policyholder.date_of_birth := DateTime 726468 0 |}.

Definition motor : Policy.t :=
  {| Policy.id := 10;
     Policy.policyholder_id := 1;
     Policy.type := "motor";
     Policy.start_date := DateTime 737425 0;
     Policy.end_date := DateTime 737790 0;
     Policy.coverage_amount := 1000000;
     Policy.premium := 60000 |}.

Definition dent : Claim.t :=
  {| Claim.id := 100;
     Claim.policy_id := 10;
     Claim.date_of_incident := DateTime 737485 0;
     Claim.description := "dent";
     Claim.amount := 25000;
     Claim.status := SUBMITTED;
     Claim.date_submitted := DateTime 737494 0 |}.

Definition sample_db : DB :=
  {| policyholders := {[ 1 := policyholder_row ann ]};
     policies := {[ 10 := policy_row motor ]};
     claims := {[ 100 := claim_row dent ]} |}.

(** A second claim on the same policy. *)
Definition scratch : Claim.t :=
  {| Claim.id := 101;
     Claim.policy_id := 10;
     Claim.date_of_incident := DateTime 737515 0;
     Claim.description := "scratch";
     Claim.amount := 8000;
     Claim.status := SUBMITTED;
     Claim.date_submitted := DateTime 737516 3600000000 |}.

(** A second policy for the same policyholder, and a second policyholder. *)
Definition home : Policy.t :=
  {| Policy.id := 11;
     Policy.policyholder_id := 1;
     Policy.type := "home";
     Policy.start_date := DateTime 737425 0;
     Policy.end_date := DateTime 737790 0;
     Policy.coverage_amount := 25000000;
     Policy.premium := 120000 |}.

Definition bob : Policyholder.t :=
  {| Policyholder.id := 2;
     Policyholder.name := "Bob Roy";
     Policyholder.contact_number := "9876543210";
     Policyholder.email := "bob@example.org";
     Policyholder.date_of_birth := DateTime 726468 0 |}.

(** A reading of the clock: 2024-06-01 (day 739038), noon. *)
Definition noon : pydate := DateTime 739038 43200000000.

(** The sample store after [update_policy("10", coverage_amount=-5.00)], and
    the policy row it then holds. *)
Definition lowered_db : DB :=
  (update_policy 10 None None None (Some (-500)) None sample_db).2.

Definition lowered_motor : Stored.policies :=
  {| Stored.policyholder_id := 1;
     Stored.type := "motor";
     Stored.start_date := 737425;
     Stored.end_date := 737790;
     Stored.coverage_amount := -500;
     Stored.premium := 60000 |}.

(** The sample store after [update_claim("100", amount=-1.00)]. *)
Definition negative_db : DB :=
  (update_claim 100 None (Some (-100)) None sample_db).2.

(** A store whose only policyholder has a malformed email. *)
Definition malformed : Stored.policyholders :=
  {| Stored.name := "Ann Lee";
     Stored.contact_number := "+14155550123";
     Stored.email := "ann.example.org";
     Stored.date_of_birth := 726468 |}.

Definition malformed_db : DB :=
  {| policyholders := {[ 1 := malformed ]}; policies := ∅; claims := ∅ |}.

(** A claim on the sample policy for more than its coverage. *)
Definition wreck : Claim.t :=
  {| Claim.id := 102;
     Claim.policy_id := 10;
     Claim.date_of_incident := DateTime 737515 0;
     Claim.description := "wreck";
     Claim.amount := 2000000;
     Claim.status := SUBMITTED;
     Claim.date_submitted := DateTime 737516 0 |}.

(** 2007-12-28 (day 733038), midnight: 18 x 365 days after 1990-01-01. *)
Definition threshold : pydate := DateTime 733038 0.

(** * Properties *)

(** ** Dates *)

Lemma normalize_Date (d : pydate) : normalize d = Date (ordinal_of d).
Proof. by destruct d. Qed.

Lemma us_per_day_pos : 0 < us_per_day.
Proof. reflexivity. Qed.

Lemma days_whole (n : Z) : days (n * us_per_day) = n.
Proof. unfold days. apply Z.div_mul. pose proof us_per_day_pos. lia. Qed.

Lemma days_ge (td n : Z) : n <= days td ↔ n * us_per_day <= td.
Proof.
  unfold days. pose proof us_per_day_pos. split; intros H0.
  - pose proof (Z.mul_div_le td us_per_day). nia.
  - apply Z.div_le_lower_bound; lia.
Qed.

(** Case analysis on every integer comparison of the goal. *)
Ltac zcases :=
  repeat match goal with
  | |- context [Z.gtb ?a ?b] => rewrite (Z.gtb_ltb a b)
  | |- context [Z.geb ?a ?b] => rewrite (Z.geb_leb a b)
  | |- context [Z.ltb ?a ?b] => destruct (Z.ltb_spec a b); cbn
  | |- context [Z.leb ?a ?b] => destruct (Z.leb_spec a b); cbn
  end.

(** ** The pattern matcher *)

Lemma matches_Void (w : list ascii) : ¬ Re.matches Re.Void w.
Proof. inversion 1. Qed.

Lemma matches_Eps (w : list ascii) : Re.matches Re.Eps w ↔ w = [].
Proof. split; [by inversion 1 | intros ->; constructor]. Qed.

Lemma matches_Class (p : ascii → bool) (w : list ascii) :
  Re.matches (Re.Class p) w ↔ ∃ c, w = [c] ∧ p c = true.
Proof.
  split; [inversion 1; by eauto | intros (c & -> & ?); by constructor].
Qed.

Lemma matches_Cat (r s : Re.regex) (w : list ascii) :
  Re.matches (Re.Cat r s) w ↔ ∃ u v, w = u ++ v ∧ Re.matches r u ∧ Re.matches s v.
Proof.
  split; [inversion 1; by eauto | intros (u & v & -> & ? & ?); by constructor].
Qed.

Lemma matches_Alt (r s : Re.regex) (w : list ascii) :
  Re.matches (Re.Alt r s) w ↔ Re.matches r w ∨ Re.matches s w.
Proof.
  split; [inversion 1; by eauto | intros [?|?]; by constructor].
Qed.

Lemma matches_cat (r s : Re.regex) (w : list ascii) :
  Re.matches (Re.cat r s) w ↔ Re.matches (Re.Cat r s) w.
Proof.
  rewrite matches_Cat.
  destruct r, s; cbn; try (by rewrite matches_Cat);
    try (split; [by intros ?%matches_Void | by intros (? & ? & _ & ?%matches_Void & _)]);
    try (split; [by intros ?%matches_Void | by intros (? & ? & _ & _ & ?%matches_Void)]).
  all: try (split;
            [ intros H; exists [], w; split; [done|]; split; [constructor | done]
            | intros (u & v & -> & ->%matches_Eps & H); done ]).
  all: (split;
        [ intros H; exists w, []; rewrite app_nil_r; split; [done|]; split; [done | constructor]
        | intros (u & v & -> & H & ->%matches_Eps); by rewrite app_nil_r ]).
Qed.

Lemma matches_alt (r s : Re.regex) (w : list ascii) :
  Re.matches (Re.alt r s) w ↔ Re.matches (Re.Alt r s) w.
Proof.
  rewrite matches_Alt.
  destruct r, s; cbn; try (by rewrite matches_Alt);
    try (split; [by auto | by intros [?%matches_Void | ?]]);
    (split; [by auto | by intros [? | ?%matches_Void]]).
Qed.

Lemma nullable_spec (r : Re.regex) : Re.nullable r = true ↔ Re.matches r [].
Proof.
  split.
  - induction r; cbn; intros H; try done; try by constructor.
    + apply andb_true_iff in H as [? ?]. apply (Re.MCat _ _ [] []); auto.
    + apply orb_true_iff in H as [?|?]; [apply Re.MAltL | apply Re.MAltR]; auto.
  - intros H. remember [] as w eqn:Hw. induction H; cbn; subst; try done.
    + apply app_eq_nil in Hw as [-> ->]. rewrite IHmatches1, IHmatches2; done.
    + rewrite IHmatches; done.
    + rewrite IHmatches by done. apply orb_true_r.
Qed.

Lemma matches_Star_cons (r : Re.regex) (c : ascii) (w : list ascii) :
  Re.matches (Re.Star r) (c :: w) ↔
  ∃ u v, w = u ++ v ∧ Re.matches r (c :: u) ∧ Re.matches (Re.Star r) v.
Proof.
  split.
  - intros H. remember (Re.Star r) as s eqn:Hs. remember (c :: w) as cw eqn:Hcw.
    revert w Hcw. induction H; intros w Hcw; try done.
    injection Hs as ->.
    destruct u as [|c' u]; cbn in Hcw.
    + by apply IHmatches2.
    + injection Hcw as <- <-. by eauto.
  - intros (u & v & -> & Hu & Hv). by apply (Re.MStarApp r (c :: u) v).
Qed.

Lemma deriv_spec (c : ascii) (r : Re.regex) (w : list ascii) :
  Re.matches (Re.deriv c r) w ↔ Re.matches r (c :: w).
Proof.
  revert w. induction r as [| |p|r IHr s IHs|r IHr s IHs|r IHr]; intros w; cbn.
  - split; by intros ?%matches_Void.
  - split; [by intros ?%matches_Void | by intros ?%matches_Eps].
  - rewrite matches_Class. destruct (p c) eqn:Hp.
    + rewrite matches_Eps. split; [intros ->; by eauto | by intros (? & [= <- <-] & _)].
    + split; [by intros ?%matches_Void | intros (? & [= <- _] & ?); congruence].
  - rewrite (matches_Cat r s (c :: w)).
    assert (Hcat : Re.matches (Re.cat (Re.deriv c r) s) w ↔
                   ∃ u v, w = u ++ v ∧ Re.matches r (c :: u) ∧ Re.matches s v).
    { rewrite matches_cat, matches_Cat. by setoid_rewrite IHr. }
    destruct (Re.nullable r) eqn:Hn.
    + rewrite matches_alt, matches_Alt, Hcat, IHs. split.
      * intros [(u & v & -> & ? & ?) | ?].
        -- exists (c :: u), v. done.
        -- exists [], (c :: w). split; [done|]. split; [by apply nullable_spec | done].
      * intros ([|c' u] & v & Hw & Hu & Hv); cbn in Hw.
        -- right. by rewrite Hw.
        -- injection Hw as -> ->. left. by eauto.
    + rewrite Hcat. split.
      * intros (u & v & -> & ? & ?). exists (c :: u), v. done.
      * intros ([|c' u] & v & Hw & Hu & Hv); cbn in Hw.
        -- apply nullable_spec in Hu. congruence.
        -- injection Hw as -> ->. by eauto.
  - rewrite matches_alt, !matches_Alt, IHr, IHs. done.
  - rewrite matches_cat, matches_Cat, matches_Star_cons. by setoid_rewrite IHr.
Qed.

Lemma search_prefix_spec (at_end : list ascii → bool) (r : Re.regex) (w : list ascii) :
  Re.search_prefix at_end r w = true ↔
  ∃ u v, w = u ++ v ∧ Re.matches r u ∧ at_end v = true.
Proof.
  revert r. induction w as [|c w IH]; intros r; cbn.
  - rewrite orb_false_r, andb_true_iff, nullable_spec. split.
    + intros [? ?]. by exists [], [].
    + intros (u & v & Hw & ? & ?). symmetry in Hw. apply app_eq_nil in Hw as [-> ->]. done.
  - rewrite orb_true_iff, andb_true_iff, nullable_spec, IH. split.
    + intros [[? ?] | (u & v & -> & Hu & ?)].
      * by exists [], (c :: w).
      * apply deriv_spec in Hu. by exists (c :: u), v.
    + intros ([|c' u] & v & Hw & Hu & Hv); cbn in Hw.
      * left. by rewrite Hw.
      * injection Hw as -> ->. right. exists u, v. by rewrite deriv_spec.
Qed.

(** [re.match] succeeds exactly when a prefix of the string is a word of the
    pattern and, with a final [$], what follows is nothing or one newline. *)
Lemma re_match_spec (p : Re.pattern) (s : string) :
  Re.re_match p s = true ↔
  ∃ u v, list_ascii_of_string s = u ++ v ∧ Re.matches (Re.body p) u ∧
         Re.at_end_of p v = true.
Proof. apply search_prefix_spec. Qed.

(** [re.match] anchors the pattern at the start only: what follows a
    matching prefix of an email is not looked at; and [$] lets a newline
    end a contact number. *)
Example email_plain : Re.re_match email_pattern "ann@example.org" = true.
Proof. reflexivity. Qed.

Example email_trailing_text : Re.re_match email_pattern "a@b.c@@@" = true.
Proof. reflexivity. Qed.

Example email_without_dot : Re.re_match email_pattern "ann@example" = false.
Proof. reflexivity. Qed.

Example email_empty : Re.re_match email_pattern "" = false.
Proof. reflexivity. Qed.

Example phone_nine_digits : Re.re_match phone_pattern "123456789" = true.
Proof. reflexivity. Qed.

Example phone_eight_digits : Re.re_match phone_pattern "12345678" = false.
Proof. reflexivity. Qed.

Example phone_longest : Re.re_match phone_pattern "+1123456789012345" = true.
Proof. reflexivity. Qed.

Example phone_too_long : Re.re_match phone_pattern "+11234567890123456" = false.
Proof. reflexivity. Qed.

Example phone_final_newline :
  Re.re_match phone_pattern (String.append "123456789" (String "010"%char EmptyString)) = true.
Proof. reflexivity. Qed.

Example phone_empty : Re.re_match phone_pattern "" = false.
Proof. reflexivity. Qed.

(** ** The transaction coordinator *)

Lemma _execute_transaction_raise {A : Type} (func : Tx A) (db : DB) :
  keeps_committed func →
  is_ok (_execute_transaction func db).1 = false →
  (_execute_transaction func db).2 = db.
Proof.
  intros Hk. unfold _execute_transaction.
  specialize (Hk {| committed := db; view := db |}).
  destruct (func _) as [[a|e] c]; cbn in *; [done|].
  by destruct e.
Qed.

Lemma keeps_committed_ret {A : Type} (a : A) : keeps_committed (tx_ret a).
Proof. by intros c. Qed.

Lemma keeps_committed_raise {A : Type} (e : exn) : keeps_committed (@tx_raise A e).
Proof. by intros c. Qed.

Lemma keeps_committed_lift {A : Type} (r : result A) : keeps_committed (tx_lift r).
Proof. by intros c. Qed.

Lemma keeps_committed_bind {A B : Type} (m : Tx A) (k : A → Tx B) :
  keeps_committed m → (∀ a, keeps_committed (k a)) → keeps_committed (tx_bind m k).
Proof.
  intros Hm Hk c. unfold tx_bind. specialize (Hm c).
  destruct (m c) as [[a|e] c']; cbn in *; [|done].
  by rewrite Hk.
Qed.

Lemma keeps_committed_call {A : Type} (w : World A) :
  (∀ db, (w db).2 = db) → keeps_committed (tx_call w).
Proof.
  intros Hw c. unfold tx_call. specialize (Hw (committed c)).
  by destruct (w (committed c)) as [r db']; cbn in *.
Qed.

Create HintDb committed.

#[local] Hint Resolve keeps_committed_ret keeps_committed_raise keeps_committed_lift : committed.

(** ** Lookups *)

Lemma get_policyholder_eq (id : Z) (db : DB) :
  get_policyholder id db = (Ok (Policyholder_of_row id <$> policyholders db !! id), db).
Proof. reflexivity. Qed.

Lemma get_policy_eq (id : Z) (db : DB) :
  get_policy id db = (Ok (Policy_of_row id <$> policies db !! id), db).
Proof. reflexivity. Qed.

Lemma get_claim_store (id : Z) (db : DB) : (get_claim id db).2 = db.
Proof.
  unfold get_claim, _execute_transaction, tx_bind, select_claims, tx_lift, tx_ret. cbn.
  destruct (claims db !! id) as [r|]; cbn; [|done].
  destruct (Claim_of_row id r) as [c|e]; cbn; [done|by destruct e].
Qed.

Lemma get_claim_None (id : Z) (db : DB) :
  claims db !! id = None → get_claim id db = (Ok None, db).
Proof.
  intros H. unfold get_claim, _execute_transaction, tx_bind, select_claims. cbn.
  by rewrite H.
Qed.

Lemma Claim_of_row_raises (id : Z) (r : Stored.claims) (e : exn) :
  Claim_of_row id r = Raise e → e = ValueError.
Proof.
  unfold Claim_of_row, ClaimStatus_of_value, result_bind.
  repeat case_match; congruence.
Qed.

Lemma ClaimStatus_round_trip (s : ClaimStatus) :
  ClaimStatus_of_value (ClaimStatus_value s) = Ok s.
Proof. by destruct s. Qed.

(** ** The validators *)

Lemma py_ge_false_lt (a b : pydate) : py_ge a b = Ok false ↔ py_lt a b = Ok true.
Proof.
  destruct a, b; cbn; try done; rewrite Z.geb_leb;
    split; intros [= H]; f_equal; lia.
Qed.

Lemma _validate_date_of_birth_ok (now dob : pydate) :
  is_ok (_validate_date_of_birth now dob) = true ↔
  ∃ age, py_sub now dob = Ok age ∧ 18 * 365 <= days age.
Proof.
  unfold _validate_date_of_birth, py_gt, result_bind.
  pose proof us_per_day_pos.
  destruct dob as [d|d t], now as [n|n u]; cbn;
    try (split; [done | by intros (? & ? & ?)]).
  - rewrite days_whole. zcases; split; try done.
    + intros (? & [= <-] & ?). rewrite days_whole in *. lia.
    + intros (? & [= <-] & ?). rewrite days_whole in *. lia.
    + intros _. eexists. split; [done|]. rewrite days_whole. lia.
  - zcases; split; try done.
    + intros (? & [= <-] & Hd). apply days_ge in Hd. lia.
    + intros (? & [= <-] & Hd). lia.
    + intros _. eexists. split; [done|]. lia.
Qed.

Lemma _validate_policyholder_ok (now : pydate) (p : Policyholder.t) :
  is_ok (_validate_policyholder now p) = true ↔ policyholder_admissible now p.
Proof.
  unfold policyholder_admissible. rewrite <- _validate_date_of_birth_ok.
  unfold _validate_policyholder, _validate_email, _validate_phone_number, result_bind.
  destruct (Re.re_match email_pattern _); cbn.
  2: { split; [done | by intros [? _]]. }
  destruct (Re.re_match phone_pattern _); cbn.
  2: { split; [done | by intros (_ & ? & _)]. }
  tauto.
Qed.

Lemma _validate_policy_view (p : Policy.t) (c : Conn) : (_validate_policy p c).2 = c.
Proof.
  unfold _validate_policy, tx_bind, select_policyholders, tx_lift, tx_raise, tx_ret.
  rewrite !normalize_Date. cbn.
  repeat (case_match; cbn; try done).
Qed.

Lemma _validate_policy_ok (p : Policy.t) (c : Conn) :
  is_ok (_validate_policy p c).1 = true ↔ policy_admissible (view c) p.
Proof.
  unfold policy_admissible, _validate_policy, tx_bind, select_policyholders,
    tx_lift, tx_raise, tx_ret.
  rewrite !normalize_Date. cbn.
  destruct (policyholders (view c) !! Policy.policyholder_id p) as [h|]; cbn.
  2: { split; [done | by intros (? & ? & _)]. }
  pose proof (py_ge_false_lt (Policy.start_date p) (Policy.end_date p)) as Hlt.
  destruct (py_ge (Policy.start_date p) (Policy.end_date p)) as [[]|e]; cbn.
  - split; [done|]. intros (? & _ & Hs & _). apply Hlt in Hs. done.
  - rewrite days_whole. split.
    + intros Hok. exists h. split; [done|]. split; [by apply Hlt|].
      revert Hok. zcases; try done; lia.
    + intros (? & [= <-] & _ & ?). zcases; try done; lia.
  - split; [done|]. intros (? & _ & Hs & _). apply Hlt in Hs. done.
Qed.

Lemma _validate_policy_value (p p' : Policy.t) (c : Conn) :
  (_validate_policy p c).1 = Ok p' →
  Policy.id p' = Policy.id p ∧ policy_row p' = policy_row p.
Proof.
  unfold _validate_policy, tx_bind, select_policyholders, tx_lift, tx_raise, tx_ret.
  rewrite !normalize_Date. cbn.
  repeat (case_match; cbn; try done).
  by intros [= <-].
Qed.

Lemma _validate_claim_view (cl : Claim.t) (c : Conn) : (_validate_claim cl c).2 = c.
Proof.
  unfold _validate_claim, tx_bind, select_policies, tx_lift, tx_raise, tx_ret.
  rewrite !normalize_Date. cbn.
  repeat (case_match; cbn; try done).
Qed.

Lemma _validate_claim_ok (cl : Claim.t) (c : Conn) :
  is_ok (_validate_claim cl c).1 = true ↔ claim_admissible (view c) cl.
Proof.
  unfold claim_admissible, _validate_claim, tx_bind, select_policies,
    tx_lift, tx_raise, tx_ret.
  rewrite !normalize_Date. cbn.
  destruct (policies (view c) !! Claim.policy_id cl) as [pol|]; cbn.
  2: { split; [done | by intros (? & ? & _)]. }
  rewrite days_whole. split.
  - intros Hok. exists pol. split; [done|]. revert Hok.
    zcases; try done; lia.
  - intros (? & [= <-] & ?). zcases; try done; lia.
Qed.

Lemma _validate_claim_value (cl cl' : Claim.t) (c : Conn) :
  (_validate_claim cl c).1 = Ok cl' → cl' = normalized_claim cl.
Proof.
  unfold _validate_claim, tx_bind, select_policies, tx_lift, tx_raise, tx_ret.
  rewrite !normalize_Date. cbn.
  repeat (case_match; cbn; try done).
  by intros [= <-].
Qed.

(** ** Creating a claim *)

(** C3 (as amended).  [create_claim] succeeds exactly when the claim is
    admissible (its policy exists, the incident falls within the policy
    period, the amount is positive and within the coverage, the submission
    is not before the incident and at most 30 days after it) and no stored
    claim has its identifier.  On success the store gains the claim's row
    and nothing else; on failure the store is unchanged. *)
Theorem create_claim_succeeds_iff (db : DB) (c : Claim.t) :
  (is_ok (create_claim c db).1 = true ↔
     claim_admissible db c ∧ claims db !! Claim.id c = None) ∧
  (is_ok (create_claim c db).1 = true →
     (create_claim c db).2 = set_claims (<[Claim.id c := claim_row c]> (claims db)) db) ∧
  (is_ok (create_claim c db).1 = false → (create_claim c db).2 = db).
Proof.
  set (c0 := {| committed := db; view := db |}).
  pose proof (_validate_claim_view c c0) as Hview.
  pose proof (_validate_claim_ok c c0) as Hok.
  pose proof (λ c', _validate_claim_value c c' c0) as Hval.
  unfold create_claim, _execute_transaction, tx_bind. fold c0.
  destruct (_validate_claim c c0) as [[c'|e] c1]; cbn in *; subst c1.
  - rewrite (Hval c' eq_refl). clear Hval.
    assert (Hadm : claim_admissible db c) by by apply Hok.
    unfold insert_claims, claims_insert_ok. cbn.
    destruct Hadm as (pol & Hpol & Hrest). rewrite Hpol.
    rewrite (bool_decide_eq_true_2 (is_Some (Some pol))) by done.
    rewrite andb_true_r.
    destruct (decide (claims db !! Claim.id c = None)) as [Hfree|Hused].
    + rewrite bool_decide_eq_true_2 by done. cbn.
      repeat split; try done. by exists pol.
    + rewrite bool_decide_eq_false_2 by done. cbn.
      repeat split; try done. by intros [_ ?].
  - assert (Hno : ¬ claim_admissible db c).
    { intros H. apply Hok in H. done. }
    destruct e; cbn; repeat split; try done; by intros [? _].
Qed.

(** The claim C3 as worded, without the condition on the identifier, fails:
    the stored claim [dent] is admissible, and creating it a second time is
    refused by the primary key. *)
Lemma create_claim_twice_refused :
  create_claim dent sample_db = (Raise DatabaseError, sample_db) ∧
  ¬ (is_ok (create_claim dent sample_db).1 = true ↔ claim_admissible sample_db dent).
Proof.
  split; [reflexivity|]. intros [_ Hok].
  enough (is_ok (create_claim dent sample_db).1 = true) by done.
  apply Hok. exists (policy_row motor). split; [reflexivity|]. cbn. lia.
Qed.

Lemma create_claim_succeeds_iff_witness :
  is_ok (create_claim scratch sample_db).1 = true ∧
  claims (create_claim scratch sample_db).2 !! 101 = Some (claim_row scratch).
Proof.
  destruct (create_claim_succeeds_iff sample_db scratch) as (Hiff & Hin & _).
  assert (Hok : is_ok (create_claim scratch sample_db).1 = true).
  { apply Hiff. split; [|reflexivity].
    exists (policy_row motor). split; [reflexivity|]. cbn. lia. }
  split; [exact Hok|].
  rewrite (Hin Hok). reflexivity.
Defined.

(** ** Creating a policy *)

(** C4 (as amended).  [create_policy] succeeds exactly when the policy is
    admissible (its policyholder exists, the start date is before the end
    date, coverage and premium are positive, and the policyholder was at
    least 18 x 365 days old on the start date) and no stored policy has its
    identifier.  On success the store gains the policy's row and nothing
    else; on failure the store is unchanged. *)
Theorem create_policy_succeeds_iff (db : DB) (p : Policy.t) :
  (is_ok (create_policy p db).1 = true ↔
     policy_admissible db p ∧ policies db !! Policy.id p = None) ∧
  (is_ok (create_policy p db).1 = true →
     (create_policy p db).2 = set_policies (<[Policy.id p := policy_row p]> (policies db)) db) ∧
  (is_ok (create_policy p db).1 = false → (create_policy p db).2 = db).
Proof.
  set (c0 := {| committed := db; view := db |}).
  pose proof (_validate_policy_view p c0) as Hview.
  pose proof (_validate_policy_ok p c0) as Hok.
  pose proof (λ p', _validate_policy_value p p' c0) as Hval.
  unfold create_policy, _execute_transaction, tx_bind. fold c0.
  destruct (_validate_policy p c0) as [[p'|e] c1]; cbn in *; subst c1.
  - destruct (Hval p' eq_refl) as [-> ->]. clear Hval.
    assert (Hadm : policy_admissible db p) by by apply Hok.
    unfold insert_policies, policies_insert_ok. cbn.
    destruct Hadm as (h & Hh & Hrest). rewrite Hh.
    rewrite (bool_decide_eq_true_2 (is_Some (Some h))) by done.
    rewrite andb_true_r.
    destruct (decide (policies db !! Policy.id p = None)) as [Hfree|Hused].
    + rewrite bool_decide_eq_true_2 by done. cbn.
      repeat split; try done. by exists h.
    + rewrite bool_decide_eq_false_2 by done. cbn.
      repeat split; try done. by intros [_ ?].
  - assert (Hno : ¬ policy_admissible db p).
    { intros H. apply Hok in H. done. }
    destruct e; cbn; repeat split; try done; by intros [? _].
Qed.

(** The claim C4 as worded, without the condition on the identifier, fails:
    the stored policy [motor] is admissible, and creating it a second time
    is refused by the primary key. *)
Lemma create_policy_twice_refused :
  create_policy motor sample_db = (Raise DatabaseError, sample_db) ∧
  ¬ (is_ok (create_policy motor sample_db).1 = true ↔ policy_admissible sample_db motor).
Proof.
  split; [reflexivity|]. intros [_ Hok].
  enough (is_ok (create_policy motor sample_db).1 = true) by done.
  apply Hok. exists (policyholder_row ann).
  split; [reflexivity|]. split; [reflexivity|]. cbn. lia.
Qed.

Lemma create_policy_succeeds_iff_witness :
  is_ok (create_policy home sample_db).1 = true ∧
  policies (create_policy home sample_db).2 !! 11 = Some (policy_row home).
Proof.
  destruct (create_policy_succeeds_iff sample_db home) as (Hiff & Hin & _).
  assert (Hok : is_ok (create_policy home sample_db).1 = true).
  { apply Hiff. split; [|reflexivity].
    exists (policyholder_row ann).
    split; [reflexivity|]. split; [reflexivity|]. cbn. lia. }
  split; [exact Hok|].
  rewrite (Hin Hok). reflexivity.
Defined.

(** ** Creating a policyholder *)

Lemma email_taken_spec (e : string) (id : Z) (t : gmap Z Stored.policyholders) :
  email_taken e id t = false ↔ ∀ k r, t !! k = Some r → k ≠ id → Stored.email r ≠ e.
Proof.
  unfold email_taken. rewrite bool_decide_eq_false. unfold map_Exists. split.
  - intros Hno k r Hk Hne He. apply Hno. by exists k, r.
  - intros Hall (k & r & Hk & Hne & He). by apply (Hall k r).
Qed.

Lemma policyholders_insert_ok_spec (db : DB) (p : Policyholder.t) :
  policyholders_insert_ok (Policyholder.id p) (policyholder_row p) db = true ↔
  policyholder_unused db p.
Proof.
  unfold policyholders_insert_ok, policyholder_unused.
  rewrite andb_true_iff, bool_decide_eq_true, negb_true_iff, email_taken_spec. cbn.
  split; intros [Hid Hmail]; (split; [done|]).
  - intros k r Hk. apply (Hmail k r Hk). intros ->. congruence.
  - intros k r Hk _. by apply (Hmail k r).
Qed.

(** C5 (as amended).  [create_policyholder] succeeds exactly when the
    policyholder is admissible (the email matches the email pattern, the
    contact number matches the phone pattern, and the date of birth lies at
    least 18 x 365 whole days before the current instant) and no stored
    policyholder has its identifier or its email.  On success the store
    gains the policyholder's row and nothing else; on failure the store is
    unchanged. *)
Theorem create_policyholder_succeeds_iff (now : pydate) (db : DB) (p : Policyholder.t) :
  (is_ok (create_policyholder now p db).1 = true ↔
     policyholder_admissible now p ∧ policyholder_unused db p) ∧
  (is_ok (create_policyholder now p db).1 = true →
     (create_policyholder now p db).2 =
       set_policyholders (<[Policyholder.id p := policyholder_row p]> (policyholders db)) db) ∧
  (is_ok (create_policyholder now p db).1 = false → (create_policyholder now p db).2 = db).
Proof.
  pose proof (_validate_policyholder_ok now p) as Hok.
  pose proof (policyholders_insert_ok_spec db p) as Hins.
  unfold create_policyholder, _execute_transaction, tx_bind, tx_lift, insert_policyholders.
  destruct (_validate_policyholder now p) as [[]|e]; cbn in *.
  - destruct (policyholders_insert_ok _ _ db); cbn.
    + split; [|by split].
      split; [|done]. intros _. split; [by apply Hok | by apply Hins].
    + split; [|by split].
      split; [done|]. intros [_ Hu]. apply Hins in Hu. done.
  - assert (Hno : ¬ policyholder_admissible now p).
    { intros H. apply Hok in H. done. }
    destruct e; cbn; repeat split; try done; by intros [? _].
Qed.

(** The claim C5 as worded, without the conditions on the identifier and on
    the email, fails: the stored policyholder [ann] is admissible, and
    creating her a second time is refused by the key constraints. *)
Lemma create_policyholder_twice_refused :
  create_policyholder noon ann sample_db = (Raise DatabaseError, sample_db) ∧
  ¬ (is_ok (create_policyholder noon ann sample_db).1 = true ↔
     policyholder_admissible noon ann).
Proof.
  split; [reflexivity|]. intros [_ Hok].
  enough (is_ok (create_policyholder noon ann sample_db).1 = true) by done.
  apply Hok. split; [reflexivity|]. split; [reflexivity|].
  eexists. split; [reflexivity|]. vm_compute. discriminate.
Qed.

Lemma create_policyholder_succeeds_iff_witness :
  is_ok (create_policyholder noon bob sample_db).1 = true ∧
  policyholders (create_policyholder noon bob sample_db).2 !! 2 = Some (policyholder_row bob).
Proof.
  destruct (create_policyholder_succeeds_iff noon sample_db bob) as (Hiff & Hin & _).
  assert (Hok : is_ok (create_policyholder noon bob sample_db).1 = true).
  { apply Hiff. split.
    - split; [reflexivity|]. split; [reflexivity|].
      eexists. split; [reflexivity|]. vm_compute. discriminate.
    - apply policyholders_insert_ok_spec. reflexivity. }
  split; [exact Hok|].
  rewrite (Hin Hok). reflexivity.
Defined.

(** ** Updates: what is validated, and what is stored *)

#[local] Arguments _validate_policy : simpl never.
#[local] Arguments _validate_claim : simpl never.
#[local] Arguments get_policyholder : simpl never.
#[local] Arguments get_policy : simpl never.
#[local] Arguments get_claim : simpl never.

Lemma _validate_policy_reads (p : Policy.t) (c c' : Conn) :
  policyholders (view c) = policyholders (view c') →
  (_validate_policy p c).1 = (_validate_policy p c').1.
Proof.
  intros H. unfold _validate_policy, tx_bind, select_policyholders. cbn. rewrite H.
  destruct (policyholders (view c') !! _); [|done].
  unfold tx_lift, tx_raise, tx_ret. repeat (case_match; cbn; try done).
Qed.

Lemma _validate_claim_reads (cl : Claim.t) (c c' : Conn) :
  policies (view c) !! Claim.policy_id cl = policies (view c') !! Claim.policy_id cl →
  (_validate_claim cl c).1 = (_validate_claim cl c').1.
Proof.
  intros H. unfold _validate_claim, tx_bind, select_policies. cbn. rewrite H.
  destruct (policies (view c') !! _); [|done].
  unfold tx_lift, tx_raise, tx_ret. repeat (case_match; cbn; try done).
Qed.

(** A validator raises nothing but its two kinds on a record read back from
    the store, whose dates are all date-only. *)
Lemma _validate_policy_stored_kinds (id : Z) (r : Stored.policies) (c : Conn) (e : exn) :
  (_validate_policy (Policy_of_row id r) c).1 = Raise e →
  e = ValidationError ∨ e = BusinessRuleViolation.
Proof.
  unfold _validate_policy, tx_bind, select_policyholders, tx_lift, tx_raise, tx_ret. cbn.
  repeat (case_match; cbn; try done); intros [= <-]; auto.
Qed.

Lemma _validate_claim_kinds (cl : Claim.t) (c : Conn) (e : exn) :
  (_validate_claim cl c).1 = Raise e →
  e = ValidationError ∨ e = BusinessRuleViolation.
Proof.
  unfold _validate_claim, tx_bind, select_policies, tx_lift, tx_raise, tx_ret.
  rewrite !normalize_Date. cbn.
  repeat (case_match; cbn; try done); intros [= <-]; auto.
Qed.

(** [update_policy] on a stored policy: the fields are written to the
    connection's view, and the record that is validated is the one the
    second [get_policy] reads on its own connection: the committed one. *)
Lemma update_policy_stored (id : Z) (type : option string) (start_date end_date : option pydate)
    (coverage_amount premium : option Z) (db : DB) (r : Stored.policies) :
  policies db !! id = Some r →
  update_policy id type start_date end_date coverage_amount premium db =
    match (_validate_policy (Policy_of_row id r) (connect db)).1 with
    | Ok _ =>
        (Ok tt, policy_written id r
                  (policy_update_fields type start_date end_date coverage_amount premium) db)
    | Raise e => (Raise e, db)
    end.
Proof.
  intros Hr.
  assert (Hval : ∀ db', policyholders db' = policyholders db →
    _validate_policy (Policy_of_row id r) {| committed := db; view := db' |} =
    ((_validate_policy (Policy_of_row id r) (connect db)).1,
     {| committed := db; view := db' |})).
  { intros db' Hdb'.
    rewrite (surjective_pairing (_validate_policy _ {| committed := db; view := db' |})).
    f_equal; [by apply _validate_policy_reads | apply _validate_policy_view]. }
  pose proof (_validate_policy_stored_kinds id r (connect db)) as Hkind.
  unfold update_policy, _execute_transaction, tx_bind, tx_call. cbn.
  rewrite !get_policy_eq, Hr. cbn.
  unfold policy_update_fields.
  destruct (supplied type), start_date, end_date, coverage_amount, premium; cbn;
    unfold update_policies, tx_ret; cbn; rewrite ?Hr; cbn;
    rewrite !get_policy_eq, Hr; cbn; unfold tx_bind; rewrite Hval by done;
    (destruct (_validate_policy (Policy_of_row id r) (connect db)).1 as [?|e]; cbn;
     [done | by destruct (Hkind e eq_refl) as [-> | ->]]).
Qed.

Lemma get_claim_Some (id : Z) (db : DB) (r : Stored.claims) (cl : Claim.t) :
  claims db !! id = Some r → Claim_of_row id r = Ok cl →
  get_claim id db = (Ok (Some cl), db).
Proof.
  intros Hr Hcl.
  unfold get_claim, _execute_transaction, tx_bind, select_claims, tx_lift. cbn.
  by rewrite Hr, Hcl.
Qed.

Lemma get_claim_corrupt (id : Z) (db : DB) (r : Stored.claims) (e : exn) :
  claims db !! id = Some r → Claim_of_row id r = Raise e →
  get_claim id db = (Raise ValueError, db).
Proof.
  intros Hr Hcl. rewrite (Claim_of_row_raises _ _ _ Hcl) in Hcl.
  unfold get_claim, _execute_transaction, tx_bind, select_claims, tx_lift. cbn.
  by rewrite Hr, Hcl.
Qed.

(** [update_claim] on a stored claim: as for a policy, the claim that is
    validated is the committed one, read on another connection. *)
Lemma update_claim_stored (id : Z) (description : option string) (amount : option Z)
    (status : option ClaimStatus) (db : DB) (r : Stored.claims) (cl : Claim.t) :
  claims db !! id = Some r → Claim_of_row id r = Ok cl →
  update_claim id description amount status db =
    match (_validate_claim cl (connect db)).1 with
    | Ok _ => (Ok tt, claim_written id r (claim_update_fields description amount status) db)
    | Raise e => (Raise e, db)
    end.
Proof.
  intros Hr Hcl.
  assert (Hval : ∀ db', policies db' = policies db →
    _validate_claim cl {| committed := db; view := db' |} =
    ((_validate_claim cl (connect db)).1, {| committed := db; view := db' |})).
  { intros db' Hdb'.
    rewrite (surjective_pairing (_validate_claim _ {| committed := db; view := db' |})).
    f_equal; [|apply _validate_claim_view].
    apply _validate_claim_reads. cbn. by rewrite Hdb'. }
  pose proof (_validate_claim_kinds cl (connect db)) as Hkind.
  pose proof (get_claim_Some id db r cl Hr Hcl) as Hget.
  unfold update_claim, _execute_transaction, tx_bind, tx_call. cbn.
  rewrite !Hget. cbn.
  unfold claim_update_fields.
  destruct (supplied description), amount, status; cbn;
    unfold update_claims, tx_ret; cbn; rewrite ?Hr; cbn;
    rewrite !Hget; cbn; unfold tx_bind; rewrite Hval by done;
    (destruct (_validate_claim cl (connect db)).1 as [?|e]; cbn;
     [done | by destruct (Hkind e eq_refl) as [-> | ->]]).
Qed.

Lemma update_claim_corrupt (id : Z) (description : option string) (amount : option Z)
    (status : option ClaimStatus) (db : DB) (r : Stored.claims) (e : exn) :
  claims db !! id = Some r → Claim_of_row id r = Raise e →
  update_claim id description amount status db = (Raise ValueError, db).
Proof.
  intros Hr Hcl. pose proof (get_claim_corrupt id db r e Hr Hcl) as Hget.
  unfold update_claim, _execute_transaction, tx_bind, tx_call. cbn.
  by rewrite Hget.
Qed.

Lemma update_policy_missing (id : Z) (type : option string) (start_date end_date : option pydate)
    (coverage_amount premium : option Z) (db : DB) :
  policies db !! id = None →
  update_policy id type start_date end_date coverage_amount premium db =
    (Raise ValidationError, db).
Proof.
  intros Hr. unfold update_policy, _execute_transaction, tx_bind, tx_call. cbn.
  by rewrite get_policy_eq, Hr.
Qed.

Lemma update_claim_missing (id : Z) (description : option string) (amount : option Z)
    (status : option ClaimStatus) (db : DB) :
  claims db !! id = None →
  update_claim id description amount status db = (Raise ValidationError, db).
Proof.
  intros Hr. unfold update_claim, _execute_transaction, tx_bind, tx_call. cbn.
  by rewrite (get_claim_None id db Hr).
Qed.

Lemma update_policyholder_missing (now : pydate) (id : Z) (name contact_number email : option string)
    (date_of_birth : option pydate) (db : DB) :
  policyholders db !! id = None →
  update_policyholder now id name contact_number email date_of_birth db =
    (Raise ValidationError, db).
Proof.
  intros Hr. unfold update_policyholder, _execute_transaction, tx_bind, tx_call. cbn.
  by rewrite get_policyholder_eq, Hr.
Qed.

Lemma _validate_date_of_birth_kinds (now dob : pydate) (e : exn) :
  _validate_date_of_birth now dob = Raise e →
  e = ValidationError ∨ e = BusinessRuleViolation ∨ e = TypeError.
Proof.
  unfold _validate_date_of_birth, py_gt, result_bind.
  destruct dob, now; cbn; repeat (case_match; cbn; try done); intros [= <-]; auto.
Qed.

Lemma policyholder_fields_check_kinds (now : pydate) (contact_number email : option string)
    (date_of_birth : option pydate) (e : exn) :
  policyholder_fields_check now contact_number email date_of_birth = Raise e →
  e = ValidationError ∨ e = BusinessRuleViolation ∨ e = TypeError.
Proof.
  unfold policyholder_fields_check, _validate_phone_number, _validate_email, result_bind.
  destruct (supplied contact_number) as [cn|];
    [destruct (Re.re_match phone_pattern cn); [|intros [= <-]; by auto]|];
    (destruct (supplied email) as [em|];
     [destruct (Re.re_match email_pattern em); [|intros [= <-]; by auto]|]);
    (destruct date_of_birth as [dob|]; [apply _validate_date_of_birth_kinds | done]).
Qed.

(** [update_policyholder] on a stored policyholder: the supplied fields are
    checked one by one and written; nothing is validated afterwards. *)
Lemma update_policyholder_stored (now : pydate) (id : Z) (name contact_number email : option string)
    (date_of_birth : option pydate) (db : DB) (r : Stored.policyholders) :
  policyholders db !! id = Some r →
  update_policyholder now id name contact_number email date_of_birth db =
    match policyholder_fields_check now contact_number email date_of_birth with
    | Raise e => (Raise e, db)
    | Ok _ =>
        let fields := policyholder_update_fields name contact_number email date_of_birth in
        match fields with
        | [] => (Ok tt, db)
        | _ :: _ =>
            if email_taken (Stored.email (foldl assign_policyholders r fields)) id (policyholders db)
            then (Raise DatabaseError, db)
            else (Ok tt, policyholder_written id r fields db)
        end
    end.
Proof.
  intros Hr.
  pose proof (policyholder_fields_check_kinds now contact_number email date_of_birth) as Hkind.
  unfold update_policyholder, _execute_transaction, tx_bind, tx_call. cbn.
  rewrite get_policyholder_eq, Hr. cbn.
  unfold policyholder_fields_check, policyholder_update_fields, result_bind in *.
  unfold tx_lift, tx_ret.
  destruct (supplied name), (supplied contact_number) as [cn|]; cbn.
  all: try (destruct (_validate_phone_number cn) as [[]|e1]; cbn;
            [|by destruct (Hkind e1 eq_refl) as [-> | [-> | ->]]]).
  all: destruct (supplied email) as [em|]; cbn.
  all: try (destruct (_validate_email em) as [[]|e2]; cbn;
            [|by destruct (Hkind e2 eq_refl) as [-> | [-> | ->]]]).
  all: destruct date_of_birth as [dob|]; cbn.
  all: try (destruct (_validate_date_of_birth now dob) as [[]|e3]; cbn;
            [|by destruct (Hkind e3 eq_refl) as [-> | [-> | ->]]]).
  all: unfold update_policyholders; cbn; rewrite ?Hr; cbn; try done.
  all: by destruct (email_taken _ id (policyholders db)).
Qed.

(** ** Atomicity of updates *)

Lemma keeps_committed__validate_policy (p : Policy.t) : keeps_committed (_validate_policy p).
Proof. intros c. by rewrite _validate_policy_view. Qed.

Lemma keeps_committed__validate_claim (cl : Claim.t) : keeps_committed (_validate_claim cl).
Proof. intros c. by rewrite _validate_claim_view. Qed.

Lemma keeps_committed_update_policyholders (id : Z) (fields : list policyholders_set) :
  keeps_committed (update_policyholders id fields).
Proof. intros c. unfold update_policyholders. by repeat case_match. Qed.

Lemma keeps_committed_update_policies (id : Z) (fields : list policies_set) :
  keeps_committed (update_policies id fields).
Proof. intros c. unfold update_policies. by repeat case_match. Qed.

Lemma keeps_committed_update_claims (id : Z) (fields : list claims_set) :
  keeps_committed (update_claims id fields).
Proof. intros c. unfold update_claims. by repeat case_match. Qed.

#[local] Hint Resolve keeps_committed__validate_policy keeps_committed__validate_claim
  keeps_committed_update_policyholders keeps_committed_update_policies
  keeps_committed_update_claims : committed.

(** Every step of a unit of work of this program leaves the committed store
    alone: statements write the view, nested lookups only read. *)
Ltac keeps :=
  repeat first
    [ solve [auto with committed]
    | apply keeps_committed_call; intros ?; first [reflexivity | apply get_claim_store]
    | apply keeps_committed_bind; [|intros ?]
    | match goal with
      | |- keeps_committed (match ?x with _ => _ end) => destruct x
      end ].

(** C2.  An update that raises, whatever the exception (a validation
    failure, a business-rule violation, a storage fault, a failed
    re-validation after the write), leaves the store exactly as it was. *)
Theorem update_failure_leaves_store_unchanged :
  (∀ now id name contact_number email date_of_birth db,
     is_ok (update_policyholder now id name contact_number email date_of_birth db).1 = false →
     (update_policyholder now id name contact_number email date_of_birth db).2 = db) ∧
  (∀ id type start_date end_date coverage_amount premium db,
     is_ok (update_policy id type start_date end_date coverage_amount premium db).1 = false →
     (update_policy id type start_date end_date coverage_amount premium db).2 = db) ∧
  (∀ id description amount status db,
     is_ok (update_claim id description amount status db).1 = false →
     (update_claim id description amount status db).2 = db).
Proof.
  split; [|split]; intros; unfold update_policyholder, update_policy, update_claim in *.
  - apply _execute_transaction_raise; [|done]. keeps.
  - apply _execute_transaction_raise; [|done]. unfold revalidate_policy. keeps.
  - apply _execute_transaction_raise; [|done]. unfold revalidate_claim. keeps.
Qed.

Lemma update_failure_leaves_store_unchanged_witness :
  (update_policyholder noon 1 None (Some "12") None None sample_db).2 = sample_db ∧
  (update_policy 10 None None None (Some 700) None lowered_db).2 = lowered_db ∧
  (update_claim 100 None None (Some APPROVED) lowered_db).2 = lowered_db.
Proof.
  destruct update_failure_leaves_store_unchanged as (Hh & Hp & Hc).
  split; [|split].
  - apply Hh. reflexivity.
  - apply Hp. reflexivity.
  - apply Hc. reflexivity.
Defined.

(** ** Re-validation after a partial update *)

(** C1, at a failing input.  On the sample store [update_policy] with a
    coverage amount of -5.00 succeeds and commits it, and [update_claim]
    with an amount of -1.00 succeeds and commits it: the record each
    validates is the committed one, fetched by [get_policy] / [get_claim] on
    a connection of its own, not the one it has just written.  The stored
    policy then fails the very validation the method calls. *)
Theorem update_commits_unvalidated_write :
  update_policy 10 None None None (Some (-500)) None sample_db = (Ok tt, lowered_db) ∧
  policies lowered_db !! 10 = Some lowered_motor ∧
  outcome (_validate_policy (Policy_of_row 10 lowered_motor) (connect lowered_db)).1
    = Some ValidationError ∧
  update_claim 100 None (Some (-100)) None sample_db = (Ok tt, negative_db) ∧
  Stored.amount <$> claims negative_db !! 100 = Some (-100) ∧
  outcome (update_claim 100 None None None negative_db).1 = Some ValidationError.
Proof. repeat split; reflexivity. Qed.

(** The general fact behind it: whatever fields are supplied, the outcome of
    [update_policy] is the outcome of validating the record as it was
    committed before the call. *)
Lemma update_policy_validates_committed (id : Z) (type : option string)
    (start_date end_date : option pydate) (coverage_amount premium : option Z)
    (db : DB) (r : Stored.policies) :
  policies db !! id = Some r →
  outcome (update_policy id type start_date end_date coverage_amount premium db).1 =
  outcome (_validate_policy (Policy_of_row id r) (connect db)).1.
Proof.
  intros Hr. rewrite (update_policy_stored _ _ _ _ _ _ _ _ Hr).
  by destruct (_validate_policy _ _).1.
Qed.

Lemma update_claim_validates_committed (id : Z) (description : option string)
    (amount : option Z) (status : option ClaimStatus)
    (db : DB) (r : Stored.claims) (cl : Claim.t) :
  claims db !! id = Some r → Claim_of_row id r = Ok cl →
  outcome (update_claim id description amount status db).1 =
  outcome (_validate_claim cl (connect db)).1.
Proof.
  intros Hr Hcl. rewrite (update_claim_stored _ _ _ _ _ _ _ Hr Hcl).
  by destruct (_validate_claim _ _).1.
Qed.

(** ** Updates that supply no field *)

Lemma outcome_is_ok {A : Type} (r : result A) : is_ok r = true ↔ outcome r = None.
Proof. by destruct r. Qed.

(** An update of a stored policy that supplies no field (or only an empty
    type) writes nothing, and its outcome is that of validating the stored
    record. *)
Lemma update_without_fields_store (id : Z) (db : DB) (r : Stored.policies) :
  policies db !! id = Some r →
  (update_policy id None None None None None db).2 = db ∧
  outcome (update_policy id None None None None None db).1 =
    outcome (_validate_policy (Policy_of_row id r) (connect db)).1.
Proof.
  intros Hr. split; [|by apply update_policy_validates_committed].
  rewrite (update_policy_stored _ _ _ _ _ _ _ _ Hr).
  by destruct (_validate_policy _ _).1.
Qed.

(** C7 (as amended).  For a stored policy and for a stored claim, an update
    that supplies no field writes nothing and has the outcome of the full
    validation of the stored record: it succeeds exactly when that record is
    admissible.  For a stored policyholder, an update that supplies no field
    writes nothing and succeeds, with no validation. *)
Theorem update_without_fields :
  (∀ id db r,
     policies db !! id = Some r →
     (update_policy id None None None None None db).2 = db ∧
     outcome (update_policy id None None None None None db).1 =
       outcome (_validate_policy (Policy_of_row id r) (connect db)).1 ∧
     (is_ok (update_policy id None None None None None db).1 = true ↔
        policy_admissible db (Policy_of_row id r))) ∧
  (∀ id db r cl,
     claims db !! id = Some r → Claim_of_row id r = Ok cl →
     (update_claim id None None None db).2 = db ∧
     outcome (update_claim id None None None db).1 =
       outcome (_validate_claim cl (connect db)).1 ∧
     (is_ok (update_claim id None None None db).1 = true ↔ claim_admissible db cl)) ∧
  (∀ now id db r,
     policyholders db !! id = Some r →
     update_policyholder now id None None None None db = (Ok tt, db)).
Proof.
  split; [|split].
  - intros id db r Hr.
    pose proof (update_policy_validates_committed id None None None None None db r Hr) as Hout.
    split; [|split; [exact Hout|]].
    + rewrite (update_policy_stored _ _ _ _ _ _ _ _ Hr).
      by destruct (_validate_policy _ _).1.
    + rewrite outcome_is_ok, Hout, <- outcome_is_ok. apply (_validate_policy_ok _ (connect db)).
  - intros id db r cl Hr Hcl.
    pose proof (update_claim_validates_committed id None None None db r cl Hr Hcl) as Hout.
    split; [|split; [exact Hout|]].
    + rewrite (update_claim_stored _ _ _ _ _ _ _ Hr Hcl).
      by destruct (_validate_claim _ _).1.
    + rewrite outcome_is_ok, Hout, <- outcome_is_ok. apply (_validate_claim_ok _ (connect db)).
  - intros now id db r Hr.
    by rewrite (update_policyholder_stored _ _ _ _ _ _ _ _ Hr).
Qed.

(** The claim C7 as worded fails for policyholders: the stored email does
    not match the email pattern, and the update that supplies no field
    succeeds all the same. *)
Lemma update_policyholder_without_fields_unchecked :
  policyholders malformed_db !! 1 = Some malformed ∧
  _validate_email (Stored.email malformed) = Raise ValidationError ∧
  update_policyholder noon 1 None None None None malformed_db = (Ok tt, malformed_db).
Proof. repeat split; reflexivity. Qed.

Lemma update_without_fields_witness :
  (update_policy 10 None None None None None lowered_db).2 = lowered_db ∧
  outcome (update_policy 10 None None None None None lowered_db).1 = Some ValidationError ∧
  (update_claim 100 None None None lowered_db).2 = lowered_db ∧
  update_policyholder noon 1 None None None None sample_db = (Ok tt, sample_db).
Proof.
  destruct update_without_fields as (Hp & Hc & Hh).
  destruct (Hp 10 lowered_db lowered_motor eq_refl) as (Hp1 & Hp2 & _).
  destruct (Hc 100 lowered_db (claim_row dent) (normalized_claim dent) eq_refl eq_refl)
    as (Hc1 & _).
  split; [exact Hp1|]. split; [rewrite Hp2; reflexivity|]. split; [exact Hc1|].
  exact (Hh noon 1 sample_db (policyholder_row ann) eq_refl).
Defined.

(** ** The empty string as a text field of an update *)

Lemma text_field_kept (old new : string) (arg : option string) :
  new = old ∨ new = default old (supplied arg) →
  (arg = Some EmptyString → new = old) ∧ (old ≠ EmptyString → new ≠ EmptyString).
Proof.
  destruct arg as [[|a s]|]; cbn; intros [-> | ->]; split; try done.
Qed.

Lemma policyholder_assigned (r : Stored.policyholders) (name contact_number email : option string)
    (date_of_birth : option pydate) :
  let r' := foldl assign_policyholders r
              (policyholder_update_fields name contact_number email date_of_birth) in
  Stored.name r' = default (Stored.name r) (supplied name) ∧
  Stored.contact_number r' = default (Stored.contact_number r) (supplied contact_number) ∧
  Stored.email r' = default (Stored.email r) (supplied email).
Proof.
  unfold policyholder_update_fields.
  by destruct (supplied name), (supplied contact_number), (supplied email), date_of_birth.
Qed.

Lemma policy_assigned (r : Stored.policies) (type : option string)
    (start_date end_date : option pydate) (coverage_amount premium : option Z) :
  Stored.type (foldl assign_policies r
                 (policy_update_fields type start_date end_date coverage_amount premium))
  = default (Stored.type r) (supplied type).
Proof.
  unfold policy_update_fields.
  by destruct (supplied type), start_date, end_date, coverage_amount, premium.
Qed.

Lemma claim_assigned (r : Stored.claims) (description : option string) (amount : option Z)
    (status : option ClaimStatus) :
  Stored.description (foldl assign_claims r (claim_update_fields description amount status))
  = default (Stored.description r) (supplied description).
Proof.
  unfold claim_update_fields.
  by destruct (supplied description), amount, status.
Qed.

(** The row an update leaves at its identifier is the old one or the old
    one with the supplied fields assigned. *)
Lemma update_policyholder_row (now : pydate) (id : Z) (name contact_number email : option string)
    (date_of_birth : option pydate) (db : DB) (r : Stored.policyholders) :
  policyholders db !! id = Some r →
  ∃ r', policyholders (update_policyholder now id name contact_number email date_of_birth db).2
          !! id = Some r' ∧
    (r' = r ∨ r' = foldl assign_policyholders r
                     (policyholder_update_fields name contact_number email date_of_birth)).
Proof.
  intros Hr. rewrite (update_policyholder_stored _ _ _ _ _ _ _ _ Hr).
  destruct (policyholder_fields_check _ _ _ _); cbn; [|by eauto].
  destruct (policyholder_update_fields _ _ _ _) as [|f fs] eqn:Hf; cbn; [by eauto|].
  destruct (email_taken _ _ _); cbn; [by eauto|].
  eexists. split; [apply lookup_insert_eq | by right].
Qed.

Lemma update_policy_row (id : Z) (type : option string) (start_date end_date : option pydate)
    (coverage_amount premium : option Z) (db : DB) (r : Stored.policies) :
  policies db !! id = Some r →
  ∃ r', policies (update_policy id type start_date end_date coverage_amount premium db).2
          !! id = Some r' ∧
    (r' = r ∨ r' = foldl assign_policies r
                     (policy_update_fields type start_date end_date coverage_amount premium)).
Proof.
  intros Hr. rewrite (update_policy_stored _ _ _ _ _ _ _ _ Hr).
  destruct (_validate_policy _ _).1; cbn; [|by eauto].
  destruct (policy_update_fields _ _ _ _ _) as [|f fs] eqn:Hf; cbn; [by eauto|].
  eexists. split; [apply lookup_insert_eq | by right].
Qed.

Lemma update_claim_row (id : Z) (description : option string) (amount : option Z)
    (status : option ClaimStatus) (db : DB) (r : Stored.claims) :
  claims db !! id = Some r →
  ∃ r', claims (update_claim id description amount status db).2 !! id = Some r' ∧
    (r' = r ∨ r' = foldl assign_claims r (claim_update_fields description amount status)).
Proof.
  intros Hr. destruct (Claim_of_row id r) as [cl|e] eqn:Hcl.
  - rewrite (update_claim_stored _ _ _ _ _ _ _ Hr Hcl).
    destruct (_validate_claim _ _).1; cbn; [|by eauto].
    destruct (claim_update_fields _ _ _) as [|f fs] eqn:Hf; cbn; [by eauto|].
    eexists. split; [apply lookup_insert_eq | by right].
  - rewrite (update_claim_corrupt _ _ _ _ _ _ _ Hr Hcl). by eauto.
Qed.

(** C10 (as amended).  In every update of a stored record, an empty string
    given for a text field (name, contact number, email, type, description)
    is the field left out: the call is the call without it, the empty value
    is not validated (an update that supplies only empty strings to a
    policyholder succeeds, though the empty string matches neither pattern),
    the stored field keeps its value, and no update turns a non-empty stored
    text field into the empty string.  The outcome of such a call is the
    outcome of the call without the field: for a policy, that of the
    validation of the stored record. *)
Theorem empty_text_is_not_supplied :
  (∀ now id name contact_number email date_of_birth db r,
     policyholders db !! id = Some r →
     update_policyholder now id (Some EmptyString) contact_number email date_of_birth db =
       update_policyholder now id None contact_number email date_of_birth db ∧
     update_policyholder now id name (Some EmptyString) email date_of_birth db =
       update_policyholder now id name None email date_of_birth db ∧
     update_policyholder now id name contact_number (Some EmptyString) date_of_birth db =
       update_policyholder now id name contact_number None date_of_birth db ∧
     _validate_phone_number EmptyString = Raise ValidationError ∧
     _validate_email EmptyString = Raise ValidationError ∧
     update_policyholder now id (Some EmptyString) (Some EmptyString) (Some EmptyString) None db =
       (Ok tt, db) ∧
     ∃ r', policyholders
             (update_policyholder now id name contact_number email date_of_birth db).2
             !! id = Some r' ∧
       (name = Some EmptyString → Stored.name r' = Stored.name r) ∧
       (Stored.name r ≠ EmptyString → Stored.name r' ≠ EmptyString) ∧
       (contact_number = Some EmptyString →
          Stored.contact_number r' = Stored.contact_number r) ∧
       (Stored.contact_number r ≠ EmptyString → Stored.contact_number r' ≠ EmptyString) ∧
       (email = Some EmptyString → Stored.email r' = Stored.email r) ∧
       (Stored.email r ≠ EmptyString → Stored.email r' ≠ EmptyString)) ∧
  (∀ id type start_date end_date coverage_amount premium db r,
     policies db !! id = Some r →
     update_policy id (Some EmptyString) start_date end_date coverage_amount premium db =
       update_policy id None start_date end_date coverage_amount premium db ∧
     (update_policy id (Some EmptyString) None None None None db).2 = db ∧
     outcome (update_policy id (Some EmptyString) None None None None db).1 =
       outcome (_validate_policy (Policy_of_row id r) (connect db)).1 ∧
     ∃ r', policies (update_policy id type start_date end_date coverage_amount premium db).2
             !! id = Some r' ∧
       (type = Some EmptyString → Stored.type r' = Stored.type r) ∧
       (Stored.type r ≠ EmptyString → Stored.type r' ≠ EmptyString)) ∧
  (∀ id description amount status db r,
     claims db !! id = Some r →
     update_claim id (Some EmptyString) amount status db =
       update_claim id None amount status db ∧
     (update_claim id (Some EmptyString) None None db).2 = db ∧
     ∃ r', claims (update_claim id description amount status db).2 !! id = Some r' ∧
       (description = Some EmptyString → Stored.description r' = Stored.description r) ∧
       (Stored.description r ≠ EmptyString → Stored.description r' ≠ EmptyString)).
Proof.
  split; [|split].
  - intros now id name contact_number email date_of_birth db r Hr.
    do 5 (split; [reflexivity|]).
    split; [by rewrite (update_policyholder_stored _ _ _ _ _ _ _ _ Hr)|].
    destruct (update_policyholder_row now id name contact_number email date_of_birth db r Hr)
      as (r' & Hr' & Hcase).
    exists r'. split; [exact Hr'|].
    destruct (policyholder_assigned r name contact_number email date_of_birth)
      as (Hn & Hc & He).
    destruct (text_field_kept (Stored.name r) (Stored.name r') name) as [Hn1 Hn2];
      [destruct Hcase as [-> | ->]; auto|].
    destruct (text_field_kept (Stored.contact_number r) (Stored.contact_number r')
                contact_number) as [Hc1 Hc2];
      [destruct Hcase as [-> | ->]; auto|].
    destruct (text_field_kept (Stored.email r) (Stored.email r') email) as [He1 He2];
      [destruct Hcase as [-> | ->]; auto|].
    repeat split; assumption.
  - intros id type start_date end_date coverage_amount premium db r Hr.
    split; [reflexivity|].
    destruct (update_without_fields_store id db r Hr) as [Hst Hout].
    split; [exact Hst|]. split; [exact Hout|].
    destruct (update_policy_row id type start_date end_date coverage_amount premium db r Hr)
      as (r' & Hr' & Hcase).
    exists r'. split; [exact Hr'|].
    apply text_field_kept. destruct Hcase as [-> | ->]; [by left|right].
    apply policy_assigned.
  - intros id description amount status db r Hr.
    split; [reflexivity|].
    split.
    { destruct (update_claim_row id (Some EmptyString) None None db r Hr) as (r' & Hr' & Hcase).
      destruct (Claim_of_row id r) as [cl|e] eqn:Hcl.
      - rewrite (update_claim_stored _ _ _ _ _ _ _ Hr Hcl).
        by destruct (_validate_claim _ _).1.
      - by rewrite (update_claim_corrupt _ _ _ _ _ _ _ Hr Hcl). }
    destruct (update_claim_row id description amount status db r Hr) as (r' & Hr' & Hcase).
    exists r'. split; [exact Hr'|].
    apply text_field_kept. destruct Hcase as [-> | ->]; [by left|right].
    apply claim_assigned.
Qed.

(** The claim C10 as worded promises success; the call has the outcome of
    the call without the field instead.  On the store [lowered_db] the
    policy 10 is stored with a negative coverage amount, and the update that
    supplies an empty type is refused like the update that supplies
    nothing. *)
Lemma update_with_empty_type_refused :
  policies lowered_db !! 10 = Some lowered_motor ∧
  update_policy 10 (Some EmptyString) None None None None lowered_db =
    (Raise ValidationError, lowered_db).
Proof. split; reflexivity. Qed.

Lemma empty_text_is_not_supplied_witness :
  update_policyholder noon 1 (Some EmptyString) (Some EmptyString) (Some EmptyString) None
    sample_db = (Ok tt, sample_db) ∧
  (update_policy 10 (Some EmptyString) None None None None sample_db).2 = sample_db ∧
  (update_claim 100 (Some EmptyString) None None sample_db).2 = sample_db.
Proof.
  destruct empty_text_is_not_supplied as (Hh & Hp & Hc).
  destruct (Hh noon 1 None None None None sample_db (policyholder_row ann) eq_refl)
    as (_ & _ & _ & _ & _ & Hh1 & _).
  destruct (Hp 10 None None None None None sample_db (policy_row motor) eq_refl)
    as (_ & Hp1 & _).
  destruct (Hc 100 None None None sample_db (claim_row dent) eq_refl) as (_ & Hc1 & _).
  split; [exact Hh1|]. split; [exact Hp1 | exact Hc1].
Defined.

(** ** Cascading deletes *)

Lemma delete_policyholder_stored (id : Z) (db : DB) (h : Stored.policyholders) :
  policyholders db !! id = Some h →
  delete_policyholder id db =
    (Ok tt, {| policyholders := delete id (policyholders db);
               policies := policies_not_of id (policies db);
               claims := claims_not_on (policies_of id (policies db)) (claims db) |}).
Proof.
  intros Hh. unfold delete_policyholder, _execute_transaction, tx_bind, delete_policyholders.
  cbn. by rewrite Hh.
Qed.

Lemma delete_policy_stored (id : Z) (db : DB) (p : Stored.policies) :
  policies db !! id = Some p →
  delete_policy id db =
    (Ok tt, {| policyholders := policyholders db;
               policies := delete id (policies db);
               claims := filter (fun kr => Stored.policy_id kr.2 ≠ id) (claims db) |}).
Proof.
  intros Hp. unfold delete_policy, _execute_transaction, tx_bind, delete_policies.
  cbn. by rewrite Hp.
Qed.

(** C9.  Deleting a stored policyholder removes it, every policy that
    references it and every claim that references one of those policies;
    deleting a stored policy removes it and every claim that references it.
    A removed claim is then not found by [get_claim]. *)
Theorem delete_cascades :
  (∀ hid db h,
     policyholders db !! hid = Some h →
     ∃ db', delete_policyholder hid db = (Ok tt, db') ∧
       policyholders db' !! hid = None ∧
       (∀ pid p, policies db !! pid = Some p → Stored.policyholder_id p = hid →
          policies db' !! pid = None) ∧
       (∀ cid c p, claims db !! cid = Some c →
          policies db !! Stored.policy_id c = Some p → Stored.policyholder_id p = hid →
          claims db' !! cid = None ∧ get_claim cid db' = (Ok None, db'))) ∧
  (∀ pid db p,
     policies db !! pid = Some p →
     ∃ db', delete_policy pid db = (Ok tt, db') ∧
       policies db' !! pid = None ∧
       (∀ cid c, claims db !! cid = Some c → Stored.policy_id c = pid →
          claims db' !! cid = None ∧ get_claim cid db' = (Ok None, db'))).
Proof.
  split.
  - intros hid db h Hh. eexists. split; [exact (delete_policyholder_stored _ _ _ Hh)|].
    cbn. split; [apply lookup_delete_eq|]. split.
    + intros pid p Hp Hown. unfold policies_not_of.
      apply map_lookup_filter_None. right. intros p' Hp'. cbn. congruence.
    + intros cid c p Hc Hp Hown.
      assert (Hgone : claims_not_on (policies_of hid (policies db)) (claims db) !! cid = None).
      { unfold claims_not_on. apply map_lookup_filter_None. right. intros c' Hc'. cbn.
        assert (c' = c) as -> by congruence.
        unfold policies_of. intros Hnone.
        apply map_lookup_filter_None in Hnone as [Hnone | Hnone]; [congruence|].
        by apply (Hnone p Hp). }
      split; [exact Hgone|]. by apply get_claim_None.
  - intros pid db p Hp. eexists. split; [exact (delete_policy_stored _ _ _ Hp)|].
    cbn. split; [apply lookup_delete_eq|].
    intros cid c Hc Hon.
    assert (Hgone : filter (fun kr => Stored.policy_id kr.2 ≠ pid) (claims db) !! cid = None).
    { apply map_lookup_filter_None. right. intros c' Hc'. cbn. congruence. }
    split; [exact Hgone|]. by apply get_claim_None.
Qed.

(** The rows that reference neither the deleted policyholder nor one of its
    policies stay. *)
Lemma delete_policyholder_keeps_others (hid : Z) (db : DB) (h : Stored.policyholders) :
  policyholders db !! hid = Some h →
  let db' := (delete_policyholder hid db).2 in
  (∀ k, k ≠ hid → policyholders db' !! k = policyholders db !! k) ∧
  (∀ pid p, policies db !! pid = Some p → Stored.policyholder_id p ≠ hid →
     policies db' !! pid = Some p) ∧
  (∀ cid c, claims db !! cid = Some c →
     (∀ p, policies db !! Stored.policy_id c = Some p → Stored.policyholder_id p ≠ hid) →
     claims db' !! cid = Some c).
Proof.
  intros Hh. rewrite (delete_policyholder_stored _ _ _ Hh). cbn.
  split; [|split].
  - intros k Hk. by apply lookup_delete_ne.
  - intros pid p Hp Hown. unfold policies_not_of. by apply map_lookup_filter_Some.
  - intros cid c Hc Hown. unfold claims_not_on, policies_of.
    apply map_lookup_filter_Some. split; [done|]. cbn.
    apply map_lookup_filter_None.
    destruct (policies db !! Stored.policy_id c) as [p|] eqn:Hp; [right|by left].
    intros p' [= <-]. cbn. by apply Hown.
Qed.

Lemma delete_cascades_witness :
  (delete_policyholder 1 sample_db).2 = empty_db ∧
  get_claim 100 (delete_policy 10 sample_db).2 = (Ok None, (delete_policy 10 sample_db).2).
Proof.
  destruct delete_cascades as [Hh Hp].
  destruct (Hh 1 sample_db (policyholder_row ann) eq_refl) as (db1 & Hdel1 & _).
  destruct (Hp 10 sample_db (policy_row motor) eq_refl) as (db2 & Hdel2 & _ & Hclaims).
  rewrite Hdel2. cbn [snd].
  split; [reflexivity|].
  exact (proj2 (Hclaims 100 (claim_row dent) eq_refl eq_refl)).
Defined.

(** ** Time of day *)

Lemma same_day_ordinal (a b : pydate) : same_day a b → ordinal_of a = ordinal_of b.
Proof. by intros [-> | (_ & _ & ?)]. Qed.

Lemma same_day_kind (a b : pydate) :
  same_day a b → isinstance_datetime a = isinstance_datetime b.
Proof. intros [-> | (Ha & Hb & _)]; congruence. Qed.

Lemma _validate_claim_dates (c : Claim.t) (incident submitted : pydate) (conn : Conn) :
  ordinal_of incident = ordinal_of (Claim.date_of_incident c) →
  ordinal_of submitted = ordinal_of (Claim.date_submitted c) →
  _validate_claim (with_dates c incident submitted) conn = _validate_claim c conn.
Proof.
  intros Hi Hs. unfold _validate_claim. cbn. rewrite !normalize_Date, Hi, Hs. reflexivity.
Qed.

(** On different days, the order of two values is the order of their days. *)
Lemma py_ge_days (a b : pydate) :
  wf_pydate a → wf_pydate b →
  isinstance_datetime a = isinstance_datetime b →
  ordinal_of a ≠ ordinal_of b →
  py_ge a b = Ok (ordinal_of a >=? ordinal_of b).
Proof.
  destruct a as [x|x t], b as [y|y u]; cbn; try done.
  intros Ht Hu _ Hne. f_equal. rewrite !Z.geb_leb.
  apply eq_iff_eq_true. rewrite !Z.leb_le.
  unfold instant, us_per_day in *. lia.
Qed.

Lemma _validate_policy_period (p : Policy.t) (start_date end_date : pydate) (conn : Conn) :
  wf_pydate (Policy.start_date p) → wf_pydate (Policy.end_date p) →
  wf_pydate start_date → wf_pydate end_date →
  same_day (Policy.start_date p) start_date → same_day (Policy.end_date p) end_date →
  ordinal_of (Policy.start_date p) ≠ ordinal_of (Policy.end_date p) →
  _validate_policy (with_period p start_date end_date) conn =
    match _validate_policy p conn with
    | (Ok q, c) => (Ok (with_period q (Policy.start_date q) end_date), c)
    | (Raise e, c) => (Raise e, c)
    end.
Proof.
  intros Hw1 Hw2 Hw3 Hw4 Hs He Hne.
  pose proof (same_day_ordinal _ _ Hs) as Hos.
  pose proof (same_day_ordinal _ _ He) as Hoe.
  pose proof (same_day_kind _ _ Hs) as Hks.
  pose proof (same_day_kind _ _ He) as Hke.
  unfold _validate_policy, tx_bind, select_policyholders, tx_lift, tx_raise, tx_ret. cbn.
  destruct (policyholders (view conn) !! Policy.policyholder_id p) as [h|]; [|done].
  rewrite !normalize_Date, <- Hos. cbn.
  destruct (decide (isinstance_datetime (Policy.start_date p) =
                    isinstance_datetime (Policy.end_date p))) as [Hk|Hk].
  - rewrite (py_ge_days (Policy.start_date p) (Policy.end_date p)) by done.
    rewrite (py_ge_days start_date end_date) by congruence.
    rewrite <- Hos, <- Hoe.
    repeat (case_match; cbn; try done).
  - assert (Hraise : ∀ a b, isinstance_datetime a ≠ isinstance_datetime b →
                            py_ge a b = Raise TypeError) by (by intros [] []).
    rewrite (Hraise (Policy.start_date p) (Policy.end_date p)) by done.
    rewrite (Hraise start_date end_date) by congruence.
    done.
Qed.

(** C6 (as amended).  The validation of a claim, and with it
    [create_claim], is the same for any two claims that differ only in the
    time of day of their dates.  [create_policy] is the same for any two
    policies that differ only in the time of day of their start and end
    dates, when these fall on different days. *)
Theorem time_of_day_is_immaterial :
  (∀ c incident submitted db,
     same_day (Claim.date_of_incident c) incident →
     same_day (Claim.date_submitted c) submitted →
     (∀ conn, _validate_claim (with_dates c incident submitted) conn = _validate_claim c conn) ∧
     create_claim (with_dates c incident submitted) db = create_claim c db) ∧
  (∀ p start_date end_date db,
     wf_pydate (Policy.start_date p) → wf_pydate (Policy.end_date p) →
     wf_pydate start_date → wf_pydate end_date →
     same_day (Policy.start_date p) start_date →
     same_day (Policy.end_date p) end_date →
     ordinal_of (Policy.start_date p) ≠ ordinal_of (Policy.end_date p) →
     create_policy (with_period p start_date end_date) db = create_policy p db).
Proof.
  split.
  - intros c incident submitted db Hi Hs.
    apply same_day_ordinal in Hi, Hs.
    assert (Hval : ∀ conn,
      _validate_claim (with_dates c incident submitted) conn = _validate_claim c conn).
    { intros conn. by apply _validate_claim_dates. }
    split; [exact Hval|].
    unfold create_claim, _execute_transaction, tx_bind. by rewrite Hval.
  - intros p start_date end_date db Hw1 Hw2 Hw3 Hw4 Hs He Hne.
    pose proof (λ q, _validate_policy_value p q (connect db)) as Hval.
    unfold create_policy, _execute_transaction, tx_bind. fold (connect db).
    rewrite (_validate_policy_period p start_date end_date (connect db)) by done.
    destruct (_validate_policy p (connect db)) as [[q|e] c]; [|done].
    destruct (Hval q eq_refl) as [Hid Hrow].
    assert (Hend : ordinal_of (Policy.end_date q) = ordinal_of (Policy.end_date p))
      by exact (f_equal Stored.end_date Hrow).
    assert (Hq : policy_row (with_period q (Policy.start_date q) end_date) = policy_row q).
    { unfold policy_row. cbn. by rewrite Hend, (same_day_ordinal _ _ He). }
    by rewrite Hq.
Qed.

(** The claim C6 as worded fails for policyholders: [_validate_date_of_birth]
    compares the date of birth, time of day included, with the current
    instant.  With the clock at [threshold], a policyholder born on
    1990-01-01 at midnight is accepted and one born a microsecond later the
    same day is refused. *)
Lemma time_of_day_decides_age :
  same_day (Policyholder.date_of_birth ann) (DateTime 726468 1) ∧
  outcome (create_policyholder threshold ann empty_db).1 = None ∧
  outcome (create_policyholder threshold
             (with_date_of_birth ann (DateTime 726468 1)) empty_db).1
    = Some BusinessRuleViolation.
Proof.
  split; [|split]; [|reflexivity|reflexivity].
  right. cbn. done.
Qed.

(** Nor is the start of a policy normalised before it is compared with the
    end: on one and the same day the time of day decides. *)
Lemma time_of_day_decides_period :
  same_day (DateTime 737425 0) (DateTime 737425 1) ∧
  outcome (create_policy (with_period home (DateTime 737425 0) (DateTime 737425 1))
             sample_db).1 = None ∧
  outcome (create_policy (with_period home (DateTime 737425 0) (DateTime 737425 0))
             sample_db).1 = Some ValidationError.
Proof.
  split; [|split]; [|reflexivity|reflexivity].
  right. cbn. done.
Qed.

Lemma time_of_day_is_immaterial_witness :
  create_claim (with_dates scratch (DateTime 737515 43200000000) (DateTime 737516 0))
    sample_db = create_claim scratch sample_db ∧
  create_policy (with_period home (DateTime 737425 1) (DateTime 737790 86399999999))
    sample_db = create_policy home sample_db.
Proof.
  destruct time_of_day_is_immaterial as [Hc Hp].
  split.
  - apply Hc; right; cbn; done.
  - apply Hp; cbn; unfold us_per_day; try lia; right; cbn; done.
Defined.

(** ** The kind of a rejection *)

(** What a creating method raises, other than a storage fault, is what its
    validator raises. *)
Lemma create_policyholder_raises (now : pydate) (p : Policyholder.t) (db : DB) (e : exn) :
  e ≠ DatabaseError → e ≠ Psycopg2Error →
  (create_policyholder now p db).1 = Raise e ↔ _validate_policyholder now p = Raise e.
Proof.
  intros Hd Hp.
  unfold create_policyholder, _execute_transaction, tx_bind, tx_lift, insert_policyholders.
  destruct (_validate_policyholder now p) as [[]|e']; cbn.
  - destruct (policyholders_insert_ok _ _ db); cbn; split; intros [=]; congruence.
  - destruct e'; cbn; split; intros [=]; congruence.
Qed.

Lemma create_policy_raises (p : Policy.t) (db : DB) (e : exn) :
  e ≠ DatabaseError → e ≠ Psycopg2Error →
  (create_policy p db).1 = Raise e ↔ (_validate_policy p (connect db)).1 = Raise e.
Proof.
  intros Hd Hp.
  unfold create_policy, _execute_transaction, tx_bind, insert_policies. fold (connect db).
  destruct (_validate_policy p (connect db)) as [[q|e'] c]; cbn.
  - destruct (policies_insert_ok _ _ _); cbn; split; intros [=]; congruence.
  - destruct e'; cbn; split; intros [=]; congruence.
Qed.

Lemma create_claim_raises (cl : Claim.t) (db : DB) (e : exn) :
  e ≠ DatabaseError → e ≠ Psycopg2Error →
  (create_claim cl db).1 = Raise e ↔ (_validate_claim cl (connect db)).1 = Raise e.
Proof.
  intros Hd Hp.
  unfold create_claim, _execute_transaction, tx_bind, insert_claims. fold (connect db).
  destruct (_validate_claim cl (connect db)) as [[q|e'] c]; cbn.
  - destruct (claims_insert_ok _ _ _); cbn; split; intros [=]; congruence.
  - destruct e'; cbn; split; intros [=]; congruence.
Qed.

(** Closes a goal [validator = Raise kind ↔ cause] once every comparison has
    been decided. *)
Ltac solve_kind :=
  split;
  [ first [ done | intros _; first [ lia | by eauto 10 with lia ] ]
  | first [ done
          | let Hc := fresh "Hcause" in
            intros Hc;
            repeat match goal with
                   | H : _ ∨ _ |- _ => destruct H as [H|H]
                   | H : _ ∧ _ |- _ => destruct H as [? H]
                   | H : ∃ _, _ |- _ => destruct H as [? H]
                   end; simplify_eq; first [ done | lia ] ] ].

Lemma _validate_date_of_birth_VE (now dob : pydate) :
  _validate_date_of_birth now dob = Raise ValidationError ↔ py_gt dob now = Ok true.
Proof.
  unfold _validate_date_of_birth, py_gt, result_bind.
  destruct dob as [d|d t], now as [n|n u]; cbn; try done; zcases; solve_kind.
Qed.

Lemma _validate_date_of_birth_BRV (now dob : pydate) :
  _validate_date_of_birth now dob = Raise BusinessRuleViolation ↔
  py_gt dob now ≠ Ok true ∧ ∃ age, py_sub now dob = Ok age ∧ days age < 18 * 365.
Proof.
  unfold _validate_date_of_birth, py_gt, result_bind.
  destruct dob as [d|d t], now as [n|n u]; cbn;
    try (split; [done | by intros (_ & ? & ? & _)]).
  - destruct (Z.ltb_spec n d); cbn; [split; [done | by intros [? _]]|].
    destruct (Z.ltb_spec (days ((n - d) * us_per_day)) (18 * 365)); cbn.
    + split; [|done]. intros _. split; [done|]. by eexists.
    + split; [done|]. intros (_ & age & [= <-] & ?). lia.
  - destruct (Z.ltb_spec (instant n u) (instant d t)); cbn; [split; [done | by intros [? _]]|].
    destruct (Z.ltb_spec (days (instant n u - instant d t)) (18 * 365)); cbn.
    + split; [|done]. intros _. split; [done|]. by eexists.
    + split; [done|]. intros (_ & age & [= <-] & ?). lia.
Qed.

Lemma _validate_policyholder_VE (now : pydate) (p : Policyholder.t) :
  _validate_policyholder now p = Raise ValidationError ↔ policyholder_malformed now p.
Proof.
  unfold policyholder_malformed. rewrite <- _validate_date_of_birth_VE.
  unfold _validate_policyholder, _validate_email, _validate_phone_number, result_bind.
  destruct (Re.re_match email_pattern _); cbn; [|split; by auto].
  destruct (Re.re_match phone_pattern _); cbn; [|split; by auto].
  split; [by auto|]. by intros [? | [? | ?]].
Qed.

Lemma _validate_policyholder_BRV (now : pydate) (p : Policyholder.t) :
  _validate_policyholder now p = Raise BusinessRuleViolation ↔
  ¬ policyholder_malformed now p ∧ policyholder_underage now p.
Proof.
  unfold policyholder_malformed, policyholder_underage.
  pose proof (_validate_date_of_birth_BRV now (Policyholder.date_of_birth p)) as Hdob.
  unfold _validate_policyholder, _validate_email, _validate_phone_number, result_bind.
  destruct (Re.re_match email_pattern _); cbn.
  2: { split; [done|]. intros [Hno _]. destruct Hno. by left. }
  destruct (Re.re_match phone_pattern _); cbn.
  2: { split; [done|]. intros [Hno _]. destruct Hno. by auto. }
  rewrite Hdob. split.
  - intros [Hgt Hage]. split; [|done]. by intros [? | [? | ?]].
  - intros [Hno Hage]. split; [|done]. intros Hgt. apply Hno. by auto.
Qed.

Lemma _validate_policy_VE (p : Policy.t) (c : Conn) :
  isinstance_datetime (Policy.start_date p) = isinstance_datetime (Policy.end_date p) →
  (_validate_policy p c).1 = Raise ValidationError ↔ policy_malformed (view c) p.
Proof.
  unfold policy_malformed, _validate_policy, tx_bind, select_policyholders,
    tx_lift, tx_raise, tx_ret.
  rewrite !normalize_Date. cbn.
  destruct (policyholders (view c) !! Policy.policyholder_id p) as [h|]; cbn;
    [|split; by auto].
  destruct (Policy.start_date p) as [x|x t], (Policy.end_date p) as [y|y u]; cbn; try done;
    intros _; rewrite ?days_whole; zcases; solve_kind.
Qed.

Lemma _validate_policy_BRV (p : Policy.t) (c : Conn) :
  isinstance_datetime (Policy.start_date p) = isinstance_datetime (Policy.end_date p) →
  (_validate_policy p c).1 = Raise BusinessRuleViolation ↔
  ¬ policy_malformed (view c) p ∧ policy_underage (view c) p.
Proof.
  unfold policy_malformed, policy_underage, _validate_policy, tx_bind, select_policyholders,
    tx_lift, tx_raise, tx_ret.
  rewrite !normalize_Date. cbn.
  destruct (policyholders (view c) !! Policy.policyholder_id p) as [h|]; cbn.
  2: { intros _. split; [done|]. intros [Hno _]. destruct Hno. by left. }
  destruct (Policy.start_date p) as [x|x t], (Policy.end_date p) as [y|y u]; cbn; try done;
    intros _; rewrite ?days_whole; zcases;
    (split;
     [ first [ done
             | intros _; split;
               [ intros [? | [? | [? | ?]]]; simplify_eq; lia | by eauto ] ]
     | first [ done
             | intros [Hno (h' & [= <-] & Hage)];
               first [ lia | destruct Hno; eauto 10 with lia ] ] ]).
Qed.

Lemma _validate_claim_VE (cl : Claim.t) (c : Conn) :
  (_validate_claim cl c).1 = Raise ValidationError ↔ claim_malformed (view c) cl.
Proof.
  unfold claim_malformed, _validate_claim, tx_bind, select_policies,
    tx_lift, tx_raise, tx_ret.
  rewrite !normalize_Date. cbn.
  destruct (policies (view c) !! Claim.policy_id cl) as [pol|]; cbn; [|split; by auto].
  rewrite days_whole. zcases; solve_kind.
Qed.

Lemma _validate_claim_BRV (cl : Claim.t) (c : Conn) :
  (_validate_claim cl c).1 = Raise BusinessRuleViolation ↔
  ¬ claim_malformed (view c) cl ∧ claim_late cl.
Proof.
  unfold claim_malformed, claim_late, _validate_claim, tx_bind, select_policies,
    tx_lift, tx_raise, tx_ret.
  rewrite !normalize_Date. cbn.
  destruct (policies (view c) !! Claim.policy_id cl) as [pol|]; cbn.
  2: { split; [done|]. intros [Hno _]. destruct Hno. by left. }
  rewrite days_whole. zcases;
    (split;
     [ first [ done
             | intros _; split; [|lia];
               intros [? | (pol' & [= <-] & ?)]; [done | lia] ]
     | first [ done
             | intros [Hno Hlate];
               first [ lia | destruct Hno; right; exists pol; split; [done | lia] ] ] ]).
Qed.

Lemma delete_policyholder_missing (id : Z) (db : DB) :
  policyholders db !! id = None → delete_policyholder id db = (Raise ValidationError, db).
Proof.
  intros Hr. unfold delete_policyholder, _execute_transaction, tx_bind, delete_policyholders.
  cbn. by rewrite Hr.
Qed.

Lemma delete_policy_missing (id : Z) (db : DB) :
  policies db !! id = None → delete_policy id db = (Raise ValidationError, db).
Proof.
  intros Hr. unfold delete_policy, _execute_transaction, tx_bind, delete_policies.
  cbn. by rewrite Hr.
Qed.

Lemma delete_claim_missing (id : Z) (db : DB) :
  claims db !! id = None → delete_claim id db = (Raise ValidationError, db).
Proof.
  intros Hr. unfold delete_claim, _execute_transaction, tx_bind, delete_claims.
  cbn. by rewrite Hr.
Qed.

(** C8 (as amended).  The caller can tell the two kinds apart, and each
    creating method raises them as follows.  A Validation Error: a
    malformed email or contact number or a date of birth in the future; a
    missing policyholder, a start date not before the end date, a
    non-positive coverage or premium; a missing policy, an incident outside
    the policy period, a non-positive amount, an amount above the coverage
    of the policy, a submission before the incident.  A Business Rule
    Violation: none of these, and an underage policyholder (now, or at the
    start of the policy) or a claim submitted more than 30 days after the
    incident.  An update or a delete of an identifier that is not stored
    raises a Validation Error. *)
Theorem rejection_kinds :
  ValidationError ≠ BusinessRuleViolation ∧
  (∀ now p db,
     ((create_policyholder now p db).1 = Raise ValidationError ↔
        policyholder_malformed now p) ∧
     ((create_policyholder now p db).1 = Raise BusinessRuleViolation ↔
        ¬ policyholder_malformed now p ∧ policyholder_underage now p)) ∧
  (∀ p db,
     isinstance_datetime (Policy.start_date p) = isinstance_datetime (Policy.end_date p) →
     ((create_policy p db).1 = Raise ValidationError ↔ policy_malformed db p) ∧
     ((create_policy p db).1 = Raise BusinessRuleViolation ↔
        ¬ policy_malformed db p ∧ policy_underage db p)) ∧
  (∀ c db,
     ((create_claim c db).1 = Raise ValidationError ↔ claim_malformed db c) ∧
     ((create_claim c db).1 = Raise BusinessRuleViolation ↔
        ¬ claim_malformed db c ∧ claim_late c)) ∧
  (∀ now id name contact_number email date_of_birth db,
     policyholders db !! id = None →
     update_policyholder now id name contact_number email date_of_birth db =
       (Raise ValidationError, db) ∧
     delete_policyholder id db = (Raise ValidationError, db)) ∧
  (∀ id type start_date end_date coverage_amount premium db,
     policies db !! id = None →
     update_policy id type start_date end_date coverage_amount premium db =
       (Raise ValidationError, db) ∧
     delete_policy id db = (Raise ValidationError, db)) ∧
  (∀ id description amount status db,
     claims db !! id = None →
     update_claim id description amount status db = (Raise ValidationError, db) ∧
     delete_claim id db = (Raise ValidationError, db)).
Proof.
  split; [done|]. split; [|split; [|split; [|split; [|split]]]].
  - intros now p db. split.
    + rewrite create_policyholder_raises by done. apply _validate_policyholder_VE.
    + rewrite create_policyholder_raises by done. apply _validate_policyholder_BRV.
  - intros p db Hkind. split.
    + rewrite create_policy_raises by done. by apply (_validate_policy_VE p (connect db)).
    + rewrite create_policy_raises by done. by apply (_validate_policy_BRV p (connect db)).
  - intros c db. split.
    + rewrite create_claim_raises by done. apply (_validate_claim_VE c (connect db)).
    + rewrite create_claim_raises by done. apply (_validate_claim_BRV c (connect db)).
  - intros. split; [by apply update_policyholder_missing | by apply delete_policyholder_missing].
  - intros. split; [by apply update_policy_missing | by apply delete_policy_missing].
  - intros. split; [by apply update_claim_missing | by apply delete_claim_missing].
Qed.

(** The claim C8 as worded puts a claim above the coverage among the
    Business Rule Violations; [_validate_claim] raises a Validation Error
    for it, with the message of the non-positive amount. *)
Lemma over_coverage_is_validation_error :
  Claim.amount wreck > Stored.coverage_amount (policy_row motor) ∧
  create_claim wreck sample_db = (Raise ValidationError, sample_db) ∧
  (create_claim wreck sample_db).1 ≠ Raise BusinessRuleViolation.
Proof. split; [|split]; [reflexivity | reflexivity | discriminate]. Qed.

Lemma rejection_kinds_witness :
  (create_claim wreck sample_db).1 = Raise ValidationError ∧
  (create_policyholder threshold (with_date_of_birth ann (DateTime 726468 1)) empty_db).1
    = Raise BusinessRuleViolation ∧
  (create_policy (with_period home (DateTime 737425 0) (DateTime 737425 0)) sample_db).1
    = Raise ValidationError ∧
  delete_claim 7 sample_db = (Raise ValidationError, sample_db).
Proof.
  destruct rejection_kinds as (_ & Hh & Hp & Hc & _ & _ & Hmiss).
  split; [|split; [|split]].
  - apply Hc. right. exists (policy_row motor). split; [reflexivity|]. cbn. lia.
  - apply Hh. split.
    + intros [? | [? | ?]]; discriminate.
    + eexists. split; [reflexivity|]. reflexivity.
  - apply Hp; [reflexivity|]. right. left. reflexivity.
  - apply (Hmiss 7 None None None sample_db). reflexivity.
Defined.

(** * Further properties of the repository operations *)

(** ** What each write leaves in the store *)

Lemma create_policyholder_effect (now : pydate) (p : Policyholder.t) (db : DB) :
  (is_ok (create_policyholder now p db).1 = false ∧ (create_policyholder now p db).2 = db) ∨
  (is_ok (create_policyholder now p db).1 = true ∧
   policyholder_unused db p ∧
   (create_policyholder now p db).2 =
     set_policyholders (<[Policyholder.id p := policyholder_row p]> (policyholders db)) db).
Proof.
  pose proof (policyholders_insert_ok_spec db p) as Hins.
  unfold create_policyholder, _execute_transaction, tx_bind, tx_lift, insert_policyholders.
  destruct (_validate_policyholder now p) as [[]|e]; cbn.
  - destruct (policyholders_insert_ok _ _ db); cbn; [right|by left].
    split; [done|]. split; [by apply Hins | done].
  - left. by destruct e.
Qed.

Lemma create_policy_effect (p : Policy.t) (db : DB) :
  (is_ok (create_policy p db).1 = false ∧ (create_policy p db).2 = db) ∨
  (is_ok (create_policy p db).1 = true ∧
   policies db !! Policy.id p = None ∧
   is_Some (policyholders db !! Policy.policyholder_id p) ∧
   (create_policy p db).2 = set_policies (<[Policy.id p := policy_row p]> (policies db)) db).
Proof.
  pose proof (_validate_policy_view p (connect db)) as Hview.
  pose proof (λ q, _validate_policy_value p q (connect db)) as Hval.
  unfold create_policy, _execute_transaction, tx_bind, insert_policies, policies_insert_ok.
  fold (connect db).
  destruct (_validate_policy p (connect db)) as [[q|e] c]; cbn in *; subst c.
  - destruct (Hval q eq_refl) as [Hid Hrow].
    pose proof (f_equal Stored.policyholder_id Hrow) as Hpid. cbn in Hpid.
    rewrite Hid, Hrow, Hpid. clear Hval Hid Hrow Hpid.
    destruct (decide (policies db !! Policy.id p = None)) as [Hfree|Hused];
      [rewrite (bool_decide_eq_true_2 _ Hfree) | rewrite (bool_decide_eq_false_2 _ Hused)];
      cbn; [|by left].
    destruct (decide (is_Some (policyholders db !! Policy.policyholder_id p))) as [Hh|Hh];
      [rewrite (bool_decide_eq_true_2 _ Hh) | rewrite (bool_decide_eq_false_2 _ Hh)];
      cbn; [by right | by left].
  - left. by destruct e.
Qed.

Lemma create_claim_effect (cl : Claim.t) (db : DB) :
  (is_ok (create_claim cl db).1 = false ∧ (create_claim cl db).2 = db) ∨
  (is_ok (create_claim cl db).1 = true ∧
   claims db !! Claim.id cl = None ∧
   is_Some (policies db !! Claim.policy_id cl) ∧
   (create_claim cl db).2 = set_claims (<[Claim.id cl := claim_row cl]> (claims db)) db).
Proof.
  pose proof (_validate_claim_view cl (connect db)) as Hview.
  pose proof (λ q, _validate_claim_value cl q (connect db)) as Hval.
  unfold create_claim, _execute_transaction, tx_bind, insert_claims, claims_insert_ok.
  fold (connect db).
  destruct (_validate_claim cl (connect db)) as [[q|e] c]; cbn in *; subst c.
  - rewrite (Hval q eq_refl). cbn.
    destruct (decide (claims db !! Claim.id cl = None)) as [Hfree|Hused];
      [rewrite (bool_decide_eq_true_2 _ Hfree) | rewrite (bool_decide_eq_false_2 _ Hused)];
      cbn; [|by left].
    destruct (decide (is_Some (policies db !! Claim.policy_id cl))) as [Hh|Hh];
      [rewrite (bool_decide_eq_true_2 _ Hh) | rewrite (bool_decide_eq_false_2 _ Hh)];
      cbn; [by right | by left].
  - left. by destruct e.
Qed.

(** ** Create, then read back *)

(** X1.  A policyholder that [create_policyholder] accepted is returned by
    [get_policyholder] under its identifier, field for field, with the date
    of birth reduced to its calendar day; the lookup leaves the store as it
    is. *)
Theorem create_policyholder_then_get (now : pydate) (p : Policyholder.t) (db : DB) :
  is_ok (create_policyholder now p db).1 = true →
  get_policyholder (Policyholder.id p) (create_policyholder now p db).2 =
    (Ok (Some (stored_policyholder p)), (create_policyholder now p db).2).
Proof.
  intros Hok. destruct (create_policyholder_effect now p db) as [[Hno _] | (_ & _ & ->)];
    [congruence|].
  rewrite get_policyholder_eq. cbn. by rewrite lookup_insert_eq.
Qed.

Lemma create_policyholder_then_get_witness :
  get_policyholder 2 (create_policyholder noon bob sample_db).2 =
    (Ok (Some (stored_policyholder bob)), (create_policyholder noon bob sample_db).2).
Proof. apply (create_policyholder_then_get noon bob sample_db). reflexivity. Defined.

(** X2.  A policy that [create_policy] accepted is returned by [get_policy]
    under its identifier, field for field, with the start and end dates
    reduced to their calendar days. *)
Theorem create_policy_then_get (p : Policy.t) (db : DB) :
  is_ok (create_policy p db).1 = true →
  get_policy (Policy.id p) (create_policy p db).2 =
    (Ok (Some (stored_policy p)), (create_policy p db).2).
Proof.
  intros Hok. destruct (create_policy_effect p db) as [[Hno _] | (_ & _ & _ & ->)];
    [congruence|].
  rewrite get_policy_eq. cbn. by rewrite lookup_insert_eq.
Qed.

Lemma create_policy_then_get_witness :
  get_policy 11 (create_policy home sample_db).2 =
    (Ok (Some (stored_policy home)), (create_policy home sample_db).2).
Proof. apply (create_policy_then_get home sample_db). reflexivity. Defined.

(** X3.  A claim that [create_claim] accepted is returned by [get_claim]
    under its identifier, field for field: the status comes back from its
    stored label as the member it was, and both dates are reduced to their
    calendar days. *)
Theorem create_claim_then_get (cl : Claim.t) (db : DB) :
  is_ok (create_claim cl db).1 = true →
  get_claim (Claim.id cl) (create_claim cl db).2 =
    (Ok (Some (normalized_claim cl)), (create_claim cl db).2).
Proof.
  intros Hok. destruct (create_claim_effect cl db) as [[Hno _] | (_ & _ & _ & ->)];
    [congruence|].
  apply (get_claim_Some _ _ (claim_row cl)); [apply lookup_insert_eq|].
  unfold Claim_of_row, claim_row. cbn. by rewrite ClaimStatus_round_trip.
Qed.

Lemma create_claim_then_get_witness :
  get_claim 101 (create_claim scratch sample_db).2 =
    (Ok (Some (normalized_claim scratch)), (create_claim scratch sample_db).2).
Proof. apply (create_claim_then_get scratch sample_db). reflexivity. Defined.

(** ** Status labels *)

Lemma ClaimStatus_of_value_Ok (label : string) (s : ClaimStatus) :
  ClaimStatus_of_value label = Ok s ↔ label = ClaimStatus_value s.
Proof.
  split; [|intros ->; by destruct s].
  unfold ClaimStatus_of_value.
  repeat match goal with
         | |- context [String.eqb label ?l] =>
             destruct (String.eqb_spec label l) as [-> | _]; [by intros [= <-]|]
         end.
  done.
Qed.

(** X4.  Storing a status as its label and reading the label back is the
    identity; no two statuses share a label; a text that is read back as a
    status is the label of that status, and any other text is refused with a
    ValueError. *)
Theorem ClaimStatus_label_round_trip :
  (∀ s, ClaimStatus_of_value (ClaimStatus_value s) = Ok s) ∧
  (∀ s s', ClaimStatus_value s = ClaimStatus_value s' → s = s') ∧
  (∀ label s, ClaimStatus_of_value label = Ok s → label = ClaimStatus_value s) ∧
  (∀ label, (∀ s, label ≠ ClaimStatus_value s) →
     ClaimStatus_of_value label = Raise ValueError).
Proof.
  split; [by intros []|]. split; [by intros [] []|].
  split; [intros label s; apply ClaimStatus_of_value_Ok|].
  intros label Hno.
  destruct (ClaimStatus_of_value label) as [s|e] eqn:Hl.
  - apply ClaimStatus_of_value_Ok in Hl. by destruct (Hno s).
  - unfold ClaimStatus_of_value in Hl. by repeat case_match; simplify_eq.
Qed.

Lemma ClaimStatus_label_round_trip_witness :
  ClaimStatus_of_value "Pending" = Raise ValueError.
Proof.
  destruct ClaimStatus_label_round_trip as (_ & _ & _ & Hno).
  apply Hno. by intros [].
Defined.

(** ** Lookups *)

(** X5.  [get_claim] never changes the store.  It returns nothing exactly
    when no claim has the identifier; it raises exactly when the stored
    status is the label of no status, and then it raises ValueError; on a
    store whose statuses are all labels it always returns. *)
Theorem get_claim_outcomes (id : Z) (db : DB) :
  (get_claim id db).2 = db ∧
  ((get_claim id db).1 = Ok None ↔ claims db !! id = None) ∧
  (∀ e, (get_claim id db).1 = Raise e ↔
        e = ValueError ∧
        ∃ r, claims db !! id = Some r ∧ ∀ s, Stored.status r ≠ ClaimStatus_value s) ∧
  (statuses_known db → is_ok (get_claim id db).1 = true).
Proof.
  split; [apply get_claim_store|].
  destruct (claims db !! id) as [r|] eqn:Hr.
  - destruct (Claim_of_row id r) as [cl|e0] eqn:Hcl.
    + rewrite (get_claim_Some _ _ _ _ Hr Hcl). cbn.
      split; [done|]. split; [|done].
      intros e. split; [done|]. intros (_ & r' & [= <-] & Hno).
      unfold Claim_of_row, result_bind in Hcl.
      destruct (ClaimStatus_of_value (Stored.status r)) as [s|] eqn:Hs; [|done].
      apply ClaimStatus_of_value_Ok in Hs. by destruct (Hno s).
    + rewrite (get_claim_corrupt _ _ _ _ Hr Hcl). cbn.
      split; [done|]. split.
      * intros e. split; [|by intros [-> _]].
        intros [= <-]. split; [done|]. exists r. split; [done|].
        intros s Hs. apply ClaimStatus_of_value_Ok in Hs.
        unfold Claim_of_row, result_bind in Hcl. by rewrite Hs in Hcl.
      * intros Hknown. destruct (Hknown id r Hr) as [s Hs].
        apply ClaimStatus_of_value_Ok in Hs.
        unfold Claim_of_row, result_bind in Hcl. by rewrite Hs in Hcl.
  - rewrite (get_claim_None _ _ Hr). cbn.
    split; [done|]. split; [|done].
    intros e. split; [done|]. by intros (_ & r & ? & _).
Qed.

Lemma get_claim_outcomes_witness : is_ok (get_claim 100 sample_db).1 = true.
Proof.
  apply (get_claim_outcomes 100 sample_db).
  intros cid c Hc. unfold sample_db in Hc. cbn [claims] in Hc.
  apply lookup_singleton_Some in Hc as [_ <-]. by exists SUBMITTED.
Defined.

(** ** Listings *)

Lemma listing_of_table {A : Type} (t : gmap Z A) :
  (map_to_list t = [] ↔ t = ∅) ∧
  NoDup (map_to_list t) ∧
  ∀ id r, (id, r) ∈ map_to_list t ↔ t !! id = Some r.
Proof.
  split; [apply map_to_list_empty_iff|].
  split; [apply NoDup_map_to_list|].
  intros id r. apply elem_of_map_to_list.
Qed.

(** X6.  [getAll_policyholder], [getAll_policy] and [getAll_claim] never
    raise and never change the store.  Each returns [None] exactly when its
    table is empty, and otherwise every row of the table exactly once and
    nothing else. *)
Theorem getAll_lists_the_table (db : DB) :
  (getAll_policyholder db).2 = db ∧
  ((getAll_policyholder db).1 = Ok None ↔ policyholders db = ∅) ∧
  (∃ rows, (getAll_policyholder db).1 = Ok rows ∧
     ∀ l, rows = Some l →
       NoDup l ∧ ∀ id r, (id, r) ∈ l ↔ policyholders db !! id = Some r) ∧
  (getAll_policy db).2 = db ∧
  ((getAll_policy db).1 = Ok None ↔ policies db = ∅) ∧
  (∃ rows, (getAll_policy db).1 = Ok rows ∧
     ∀ l, rows = Some l →
       NoDup l ∧ ∀ id r, (id, r) ∈ l ↔ policies db !! id = Some r) ∧
  (getAll_claim db).2 = db ∧
  ((getAll_claim db).1 = Ok None ↔ claims db = ∅) ∧
  (∃ rows, (getAll_claim db).1 = Ok rows ∧
     ∀ l, rows = Some l →
       NoDup l ∧ ∀ id r, (id, r) ∈ l ↔ claims db !! id = Some r).
Proof.
  unfold getAll_policyholder, getAll_policy, getAll_claim, _execute_transaction, tx_bind,
    select_all_policyholders, select_all_policies, select_all_claims, tx_ret. cbn.
  destruct (listing_of_table (policyholders db)) as (Hh1 & Hh2 & Hh3).
  destruct (listing_of_table (policies db)) as (Hp1 & Hp2 & Hp3).
  destruct (listing_of_table (claims db)) as (Hc1 & Hc2 & Hc3).
  destruct (map_to_list (policyholders db)) as [|h hs] eqn:Eh;
    destruct (map_to_list (policies db)) as [|q qs] eqn:Ep;
    destruct (map_to_list (claims db)) as [|c cs] eqn:Ec; cbn;
    repeat match goal with
           | |- _ ∧ _ => split
           | |- _ ↔ _ => split
           | |- ∃ _, _ => eexists
           end; try done; try tauto;
    try (by intros ? [= <-]);
    try (intros E; by first [apply Hh1 in E | apply Hp1 in E | apply Hc1 in E]).
Qed.

Lemma getAll_lists_the_table_witness :
  (getAll_claim empty_db).1 = Ok None ∧
  (getAll_policy sample_db).1 = Ok (Some [(10, policy_row motor)]).
Proof.
  destruct (getAll_lists_the_table empty_db) as (_ & _ & _ & _ & _ & _ & _ & Hc & _).
  split; [by apply Hc | reflexivity].
Defined.

(** ** Deletes remove what they must and nothing else *)

(** X7.  After [delete_policyholder] of a stored policyholder, the rows of
    the store are exactly: the other policyholders, the policies of other
    policyholders, and the claims that are not on a policy of the deleted
    one. *)
Theorem delete_policyholder_exact (hid : Z) (db : DB) (h : Stored.policyholders) :
  policyholders db !! hid = Some h →
  (delete_policyholder hid db).1 = Ok tt ∧
  (∀ k, policyholders (delete_policyholder hid db).2 !! k =
        if decide (k = hid) then None else policyholders db !! k) ∧
  (∀ pid p, policies (delete_policyholder hid db).2 !! pid = Some p ↔
            policies db !! pid = Some p ∧ Stored.policyholder_id p ≠ hid) ∧
  (∀ cid c, claims (delete_policyholder hid db).2 !! cid = Some c ↔
            claims db !! cid = Some c ∧
            ∀ p, policies db !! Stored.policy_id c = Some p → Stored.policyholder_id p ≠ hid).
Proof.
  intros Hh. rewrite (delete_policyholder_stored _ _ _ Hh). cbn.
  split; [done|]. split; [|split].
  - intros k. case_decide as Hk; [subst; apply lookup_delete_eq | by apply lookup_delete_ne].
  - intros pid p. unfold policies_not_of. by rewrite map_lookup_filter_Some.
  - intros cid c. unfold claims_not_on, policies_of.
    rewrite map_lookup_filter_Some. cbn. rewrite map_lookup_filter_None. cbn.
    split; intros [Hc Hp]; (split; [done|]).
    + intros p Hpol. destruct Hp as [Hp | Hp]; [congruence | by apply Hp].
    + destruct (policies db !! Stored.policy_id c) as [p|]; [right | by left].
      intros p' [= <-]. by apply Hp.
Qed.

Lemma delete_policyholder_exact_witness :
  policyholders (delete_policyholder 1 sample_db).2 !! 1 = None.
Proof.
  destruct (delete_policyholder_exact 1 sample_db (policyholder_row ann) eq_refl)
    as (_ & Hh & _).
  rewrite Hh. reflexivity.
Defined.

(** X8.  After [delete_policy] of a stored policy, the policyholders are
    untouched and the rows left are exactly the other policies and the
    claims on other policies. *)
Theorem delete_policy_exact (pid : Z) (db : DB) (p : Stored.policies) :
  policies db !! pid = Some p →
  (delete_policy pid db).1 = Ok tt ∧
  policyholders (delete_policy pid db).2 = policyholders db ∧
  (∀ k, policies (delete_policy pid db).2 !! k =
        if decide (k = pid) then None else policies db !! k) ∧
  (∀ cid c, claims (delete_policy pid db).2 !! cid = Some c ↔
            claims db !! cid = Some c ∧ Stored.policy_id c ≠ pid).
Proof.
  intros Hp. rewrite (delete_policy_stored _ _ _ Hp). cbn.
  split; [done|]. split; [done|]. split.
  - intros k. case_decide as Hk; [subst; apply lookup_delete_eq | by apply lookup_delete_ne].
  - intros cid c. by rewrite map_lookup_filter_Some.
Qed.

Lemma delete_policy_exact_witness :
  claims (delete_policy 10 sample_db).2 !! 100 = None.
Proof.
  destruct (delete_policy_exact 10 sample_db (policy_row motor) eq_refl) as (_ & _ & _ & Hc).
  destruct (claims (delete_policy 10 sample_db).2 !! 100) as [c|] eqn:E; [|done].
  apply Hc in E as [E Hne]. unfold sample_db in E. cbn [claims] in E.
  apply lookup_singleton_Some in E as [_ <-]. done.
Defined.

(** X9.  [delete_claim] of a stored claim removes that claim and nothing
    else: policyholders and policies are untouched, every other claim stays,
    and [get_claim] no longer finds the identifier. *)
Theorem delete_claim_exact (cid : Z) (db : DB) (c : Stored.claims) :
  claims db !! cid = Some c →
  (delete_claim cid db).1 = Ok tt ∧
  policyholders (delete_claim cid db).2 = policyholders db ∧
  policies (delete_claim cid db).2 = policies db ∧
  (∀ k, claims (delete_claim cid db).2 !! k =
        if decide (k = cid) then None else claims db !! k) ∧
  get_claim cid (delete_claim cid db).2 = (Ok None, (delete_claim cid db).2).
Proof.
  intros Hc.
  assert (Hdel : delete_claim cid db = (Ok tt, set_claims (delete cid (claims db)) db)).
  { unfold delete_claim, _execute_transaction, tx_bind, delete_claims. cbn. by rewrite Hc. }
  rewrite Hdel. cbn.
  split; [done|]. split; [done|]. split; [done|]. split.
  - intros k. case_decide as Hk; [subst; apply lookup_delete_eq | by apply lookup_delete_ne].
  - apply get_claim_None. cbn. apply lookup_delete_eq.
Qed.

Lemma delete_claim_exact_witness :
  get_claim 100 (delete_claim 100 sample_db).2 = (Ok None, (delete_claim 100 sample_db).2).
Proof. apply (delete_claim_exact 100 sample_db (claim_row dent) eq_refl). Defined.

(** ** What an accepted update stores *)

Lemma policyholder_assigned_all (r : Stored.policyholders)
    (name contact_number email : option string) (date_of_birth : option pydate) :
  let r' := foldl assign_policyholders r
              (policyholder_update_fields name contact_number email date_of_birth) in
  Stored.name r' = default (Stored.name r) (supplied name) ∧
  Stored.contact_number r' = default (Stored.contact_number r) (supplied contact_number) ∧
  Stored.email r' = default (Stored.email r) (supplied email) ∧
  Stored.date_of_birth r' = default (Stored.date_of_birth r) (ordinal_of <$> date_of_birth).
Proof.
  unfold policyholder_update_fields.
  by destruct (supplied name), (supplied contact_number), (supplied email), date_of_birth.
Qed.

Lemma policy_assigned_all (r : Stored.policies) (type : option string)
    (start_date end_date : option pydate) (coverage_amount premium : option Z) :
  let r' := foldl assign_policies r
              (policy_update_fields type start_date end_date coverage_amount premium) in
  Stored.policyholder_id r' = Stored.policyholder_id r ∧
  Stored.type r' = default (Stored.type r) (supplied type) ∧
  Stored.start_date r' = default (Stored.start_date r) (ordinal_of <$> start_date) ∧
  Stored.end_date r' = default (Stored.end_date r) (ordinal_of <$> end_date) ∧
  Stored.coverage_amount r' = default (Stored.coverage_amount r) coverage_amount ∧
  Stored.premium r' = default (Stored.premium r) premium.
Proof.
  unfold policy_update_fields.
  by destruct (supplied type), start_date, end_date, coverage_amount, premium.
Qed.

Lemma claim_assigned_all (r : Stored.claims) (description : option string)
    (amount : option Z) (status : option ClaimStatus) :
  let r' := foldl assign_claims r (claim_update_fields description amount status) in
  Stored.policy_id r' = Stored.policy_id r ∧
  Stored.date_of_incident r' = Stored.date_of_incident r ∧
  Stored.date_submitted r' = Stored.date_submitted r ∧
  Stored.description r' = default (Stored.description r) (supplied description) ∧
  Stored.amount r' = default (Stored.amount r) amount ∧
  Stored.status r' = default (Stored.status r) (ClaimStatus_value <$> status).
Proof.
  unfold claim_update_fields.
  by destruct (supplied description), amount, status.
Qed.

Lemma policyholder_written_lookup (id : Z) (r : Stored.policyholders)
    (fields : list policyholders_set) (db : DB) :
  policyholders db !! id = Some r →
  policies (policyholder_written id r fields db) = policies db ∧
  claims (policyholder_written id r fields db) = claims db ∧
  ∀ k, policyholders (policyholder_written id r fields db) !! k =
       if decide (k = id) then Some (foldl assign_policyholders r fields)
       else policyholders db !! k.
Proof.
  intros Hr. destruct fields as [|f fs]; cbn -[foldl].
  - split; [done|]. split; [done|]. intros k. case_decide; by subst.
  - split; [done|]. split; [done|]. intros k.
    case_decide; [subst; apply lookup_insert_eq | by apply lookup_insert_ne].
Qed.

Lemma policy_written_lookup (id : Z) (r : Stored.policies)
    (fields : list policies_set) (db : DB) :
  policies db !! id = Some r →
  policyholders (policy_written id r fields db) = policyholders db ∧
  claims (policy_written id r fields db) = claims db ∧
  ∀ k, policies (policy_written id r fields db) !! k =
       if decide (k = id) then Some (foldl assign_policies r fields)
       else policies db !! k.
Proof.
  intros Hr. destruct fields as [|f fs]; cbn -[foldl].
  - split; [done|]. split; [done|]. intros k. case_decide; by subst.
  - split; [done|]. split; [done|]. intros k.
    case_decide; [subst; apply lookup_insert_eq | by apply lookup_insert_ne].
Qed.

Lemma claim_written_lookup (id : Z) (r : Stored.claims)
    (fields : list claims_set) (db : DB) :
  claims db !! id = Some r →
  policyholders (claim_written id r fields db) = policyholders db ∧
  policies (claim_written id r fields db) = policies db ∧
  ∀ k, claims (claim_written id r fields db) !! k =
       if decide (k = id) then Some (foldl assign_claims r fields)
       else claims db !! k.
Proof.
  intros Hr. destruct fields as [|f fs]; cbn -[foldl].
  - split; [done|]. split; [done|]. intros k. case_decide; by subst.
  - split; [done|]. split; [done|]. intros k.
    case_decide; [subst; apply lookup_insert_eq | by apply lookup_insert_ne].
Qed.

(** X10.  An accepted [update_policy] rewrites the supplied fields of the
    policy and nothing else: an omitted field (or an empty type) keeps its
    value, a supplied date is stored as its calendar day, the owning
    policyholder never changes, and every other policy, every policyholder
    and every claim is left as it was. *)
Theorem update_policy_writes (id : Z) (type : option string)
    (start_date end_date : option pydate) (coverage_amount premium : option Z)
    (db : DB) (r : Stored.policies) :
  policies db !! id = Some r →
  is_ok (update_policy id type start_date end_date coverage_amount premium db).1 = true →
  let db' := (update_policy id type start_date end_date coverage_amount premium db).2 in
  policyholders db' = policyholders db ∧
  claims db' = claims db ∧
  (∀ k, k ≠ id → policies db' !! k = policies db !! k) ∧
  ∃ r', policies db' !! id = Some r' ∧
    Stored.policyholder_id r' = Stored.policyholder_id r ∧
    Stored.type r' = default (Stored.type r) (supplied type) ∧
    Stored.start_date r' = default (Stored.start_date r) (ordinal_of <$> start_date) ∧
    Stored.end_date r' = default (Stored.end_date r) (ordinal_of <$> end_date) ∧
    Stored.coverage_amount r' = default (Stored.coverage_amount r) coverage_amount ∧
    Stored.premium r' = default (Stored.premium r) premium.
Proof.
  intros Hr. rewrite (update_policy_stored _ _ _ _ _ _ _ _ Hr).
  destruct (_validate_policy _ _).1; cbn -[policy_written]; [intros _ | done].
  destruct (policy_written_lookup id r
              (policy_update_fields type start_date end_date coverage_amount premium) db Hr)
    as (Hh & Hc & Hp).
  split; [done|]. split; [done|]. split.
  - intros k Hk. rewrite Hp. by case_decide.
  - eexists. split; [rewrite Hp; by case_decide|]. apply policy_assigned_all.
Qed.

Lemma update_policy_writes_witness :
  ∃ r', policies (update_policy 10 None None (Some (DateTime 737800 5)) None (Some 70000)
                    sample_db).2 !! 10 = Some r' ∧
    Stored.end_date r' = 737800 ∧ Stored.premium r' = 70000 ∧
    Stored.coverage_amount r' = 1000000.
Proof.
  destruct (update_policy_writes 10 None None (Some (DateTime 737800 5)) None (Some 70000)
              sample_db (policy_row motor) eq_refl eq_refl)
    as (_ & _ & _ & r' & Hr' & _ & _ & _ & He & Hc & Hp).
  exists r'. by rewrite He, Hc, Hp.
Defined.

(** X11.  An accepted [update_claim] rewrites the supplied description,
    amount and status of the claim and nothing else: an omitted field (or an
    empty description) keeps its value, the status is stored as its label,
    the policy and both dates of the claim never change, and every other
    claim, every policy and every policyholder is left as it was. *)
Theorem update_claim_writes (id : Z) (description : option string) (amount : option Z)
    (status : option ClaimStatus) (db : DB) (r : Stored.claims) :
  claims db !! id = Some r →
  is_ok (update_claim id description amount status db).1 = true →
  let db' := (update_claim id description amount status db).2 in
  policyholders db' = policyholders db ∧
  policies db' = policies db ∧
  (∀ k, k ≠ id → claims db' !! k = claims db !! k) ∧
  ∃ r', claims db' !! id = Some r' ∧
    Stored.policy_id r' = Stored.policy_id r ∧
    Stored.date_of_incident r' = Stored.date_of_incident r ∧
    Stored.date_submitted r' = Stored.date_submitted r ∧
    Stored.description r' = default (Stored.description r) (supplied description) ∧
    Stored.amount r' = default (Stored.amount r) amount ∧
    Stored.status r' = default (Stored.status r) (ClaimStatus_value <$> status).
Proof.
  intros Hr. destruct (Claim_of_row id r) as [cl|e] eqn:Hcl.
  2: { by rewrite (update_claim_corrupt _ _ _ _ _ _ _ Hr Hcl). }
  rewrite (update_claim_stored _ _ _ _ _ _ _ Hr Hcl).
  destruct (_validate_claim _ _).1; cbn -[claim_written]; [intros _ | done].
  destruct (claim_written_lookup id r (claim_update_fields description amount status) db Hr)
    as (Hh & Hp & Hc).
  split; [done|]. split; [done|]. split.
  - intros k Hk. rewrite Hc. by case_decide.
  - eexists. split; [rewrite Hc; by case_decide|]. apply claim_assigned_all.
Qed.

Lemma update_claim_writes_witness :
  ∃ r', claims (update_claim 100 (Some "dent, left door") None (Some APPROVED)
                  sample_db).2 !! 100 = Some r' ∧
    Stored.description r' = "dent, left door" ∧ Stored.status r' = "Approved" ∧
    Stored.amount r' = 25000.
Proof.
  destruct (update_claim_writes 100 (Some "dent, left door") None (Some APPROVED)
              sample_db (claim_row dent) eq_refl eq_refl)
    as (_ & _ & _ & r' & Hr' & _ & _ & _ & Hd & Ha & Hs).
  exists r'. by rewrite Hd, Ha, Hs.
Defined.

(** X12.  An accepted [update_policyholder] rewrites the supplied fields of
    the policyholder and nothing else: an omitted field (or an empty text)
    keeps its value, a supplied date of birth is stored as its calendar day,
    and every other policyholder, every policy and every claim is left as
    it was. *)
Theorem update_policyholder_writes (now : pydate) (id : Z)
    (name contact_number email : option string) (date_of_birth : option pydate)
    (db : DB) (r : Stored.policyholders) :
  policyholders db !! id = Some r →
  is_ok (update_policyholder now id name contact_number email date_of_birth db).1 = true →
  let db' := (update_policyholder now id name contact_number email date_of_birth db).2 in
  policies db' = policies db ∧
  claims db' = claims db ∧
  (∀ k, k ≠ id → policyholders db' !! k = policyholders db !! k) ∧
  ∃ r', policyholders db' !! id = Some r' ∧
    Stored.name r' = default (Stored.name r) (supplied name) ∧
    Stored.contact_number r' = default (Stored.contact_number r) (supplied contact_number) ∧
    Stored.email r' = default (Stored.email r) (supplied email) ∧
    Stored.date_of_birth r' = default (Stored.date_of_birth r) (ordinal_of <$> date_of_birth).
Proof.
  intros Hr. rewrite (update_policyholder_stored _ _ _ _ _ _ _ _ Hr).
  pose proof (policyholder_assigned_all r name contact_number email date_of_birth) as Hall.
  destruct (policyholder_written_lookup id r
              (policyholder_update_fields name contact_number email date_of_birth) db Hr)
    as (Hp & Hc & Hh).
  destruct (policyholder_fields_check _ _ _ _); cbn -[policyholder_written]; [|done].
  destruct (policyholder_update_fields name contact_number email date_of_birth)
    as [|f fs] eqn:Hf; cbn -[policyholder_written foldl] in *.
  - intros _. split; [done|]. split; [done|]. split; [done|]. by exists r.
  - destruct (email_taken _ _ _); cbn -[policyholder_written foldl]; [done|]. intros _.
    split; [done|]. split; [done|]. split.
    + intros k Hk. specialize (Hh k). by case_decide.
    + eexists. split; [|exact Hall]. specialize (Hh id). by case_decide.
Qed.

Lemma update_policyholder_writes_witness :
  ∃ r', policyholders (update_policyholder noon 1 (Some "Ann Roy") None
                         (Some "ann.roy@example.org") None sample_db).2 !! 1 = Some r' ∧
    Stored.name r' = "Ann Roy" ∧ Stored.email r' = "ann.roy@example.org" ∧
    Stored.contact_number r' = "+14155550123".
Proof.
  destruct (update_policyholder_writes noon 1 (Some "Ann Roy") None
              (Some "ann.roy@example.org") None sample_db (policyholder_row ann)
              eq_refl eq_refl)
    as (_ & _ & _ & r' & Hr' & Hn & Hc & He & _).
  exists r'. by rewrite Hn, Hc, He.
Defined.

(** ** When an update is accepted *)

(** X13.  Whatever fields are supplied, [update_policy] on a stored policy
    is accepted exactly when the policy as it was stored before the call is
    admissible, and [update_claim] on a stored claim exactly when the claim
    as it was stored before the call is admissible: the supplied values have
    no part in the decision. *)
Theorem update_accepted_iff_committed_admissible :
  (∀ id type start_date end_date coverage_amount premium db r,
     policies db !! id = Some r →
     (is_ok (update_policy id type start_date end_date coverage_amount premium db).1 = true ↔
        policy_admissible db (Policy_of_row id r))) ∧
  (∀ id description amount status db r cl,
     claims db !! id = Some r → Claim_of_row id r = Ok cl →
     (is_ok (update_claim id description amount status db).1 = true ↔
        claim_admissible db cl)).
Proof.
  split.
  - intros id type start_date end_date coverage_amount premium db r Hr.
    rewrite outcome_is_ok, (update_policy_validates_committed _ _ _ _ _ _ _ _ Hr),
      <- outcome_is_ok.
    apply (_validate_policy_ok _ (connect db)).
  - intros id description amount status db r cl Hr Hcl.
    rewrite outcome_is_ok, (update_claim_validates_committed _ _ _ _ _ _ _ Hr Hcl),
      <- outcome_is_ok.
    apply (_validate_claim_ok _ (connect db)).
Qed.

Lemma update_accepted_iff_committed_admissible_witness :
  is_ok (update_policy 10 None None None (Some 0) None sample_db).1 = true ∧
  is_ok (update_claim 100 None (Some 0) None sample_db).1 = true.
Proof.
  destruct update_accepted_iff_committed_admissible as [Hp Hc].
  split.
  - apply (Hp 10 None None None (Some 0) None sample_db (policy_row motor) eq_refl).
    exists (policyholder_row ann).
    split; [reflexivity|]. split; [reflexivity|]. cbn. lia.
  - apply (Hc 100 None (Some 0) None sample_db (claim_row dent) (normalized_claim dent)
             eq_refl eq_refl).
    exists (policy_row motor). split; [reflexivity|]. cbn. lia.
Defined.

(** X14.  The status of a claim is not a state machine: on a stored,
    admissible claim, whatever its status, [update_claim] sets any of the
    five statuses, and [get_claim] then returns the claim with that status
    and otherwise unchanged. *)
Theorem any_status_can_be_set (id : Z) (db : DB) (r : Stored.claims) (cl : Claim.t)
    (status : ClaimStatus) :
  claims db !! id = Some r → Claim_of_row id r = Ok cl → claim_admissible db cl →
  (update_claim id None None (Some status) db).1 = Ok tt ∧
  get_claim id (update_claim id None None (Some status) db).2 =
    (Ok (Some (with_status cl status)), (update_claim id None None (Some status) db).2).
Proof.
  intros Hr Hcl Hadm.
  rewrite (update_claim_stored _ _ _ _ _ _ _ Hr Hcl).
  apply (_validate_claim_ok _ (connect db)) in Hadm.
  destruct (_validate_claim cl (connect db)).1; [|done]. cbn.
  split; [done|].
  eapply get_claim_Some; [apply lookup_insert_eq|].
  unfold Claim_of_row, result_bind in *. cbn.
  rewrite ClaimStatus_round_trip.
  destruct (ClaimStatus_of_value (Stored.status r)); [|done].
  by injection Hcl as <-.
Qed.

Lemma any_status_can_be_set_witness :
  get_claim 100 (update_claim 100 None None (Some CLOSED) sample_db).2 =
    (Ok (Some (with_status (normalized_claim dent) CLOSED)),
     (update_claim 100 None None (Some CLOSED) sample_db).2).
Proof.
  apply (any_status_can_be_set 100 sample_db (claim_row dent) (normalized_claim dent) CLOSED
           eq_refl eq_refl).
  exists (policy_row motor). split; [reflexivity|]. cbn. lia.
Defined.

Lemma policyholder_fields_check_ok (now : pydate) (contact_number email : option string)
    (date_of_birth : option pydate) :
  is_ok (policyholder_fields_check now contact_number email date_of_birth) = true ↔
  (∀ v, supplied contact_number = Some v → Re.re_match phone_pattern v = true) ∧
  (∀ v, supplied email = Some v → Re.re_match email_pattern v = true) ∧
  (∀ d, date_of_birth = Some d → ∃ age, py_sub now d = Ok age ∧ 18 * 365 <= days age).
Proof.
  unfold policyholder_fields_check, _validate_phone_number, _validate_email, result_bind.
  destruct (supplied contact_number) as [cn|].
  - destruct (Re.re_match phone_pattern cn) eqn:Hcn; cbn.
    2: { split; [done|]. intros (H & _). specialize (H cn eq_refl). congruence. }
    destruct (supplied email) as [em|].
    + destruct (Re.re_match email_pattern em) eqn:Hem; cbn.
      2: { split; [done|]. intros (_ & H & _). specialize (H em eq_refl). congruence. }
      destruct date_of_birth as [d|].
      * rewrite _validate_date_of_birth_ok. split.
        -- intros H. split; [by intros ? [= <-]|]. split; [by intros ? [= <-]|].
           by intros ? [= <-].
        -- intros (_ & _ & H). by apply H.
      * cbn. split; [|done]. intros _.
        split; [by intros ? [= <-]|]. split; [by intros ? [= <-]|]. done.
    + destruct date_of_birth as [d|].
      * rewrite _validate_date_of_birth_ok. split.
        -- intros H. split; [by intros ? [= <-]|]. split; [done|]. by intros ? [= <-].
        -- intros (_ & _ & H). by apply H.
      * cbn. split; [|done]. intros _. split; [by intros ? [= <-]|]. done.
  - destruct (supplied email) as [em|].
    + destruct (Re.re_match email_pattern em) eqn:Hem; cbn.
      2: { split; [done|]. intros (_ & H & _). specialize (H em eq_refl). congruence. }
      destruct date_of_birth as [d|].
      * rewrite _validate_date_of_birth_ok. split.
        -- intros H. split; [done|]. split; [by intros ? [= <-]|]. by intros ? [= <-].
        -- intros (_ & _ & H). by apply H.
      * cbn. split; [|done]. intros _. split; [done|]. split; [by intros ? [= <-]|]. done.
    + destruct date_of_birth as [d|].
      * rewrite _validate_date_of_birth_ok. split.
        -- intros H. split; [done|]. split; [done|]. by intros ? [= <-].
        -- intros (_ & _ & H). by apply H.
      * cbn. done.
Qed.

(** X15.  On a store whose emails are unique, [update_policyholder] of a
    stored policyholder is accepted exactly when every supplied, non-empty
    field passes its own check: the contact number matches the phone
    pattern, the email matches the email pattern and is the email of no
    other policyholder, and the date of birth lies at least 18 x 365 whole
    days before the current instant.  The name is never checked, and fields
    that are not supplied are not checked again. *)
Theorem update_policyholder_succeeds_iff (now : pydate) (id : Z)
    (name contact_number email : option string) (date_of_birth : option pydate)
    (db : DB) (r : Stored.policyholders) :
  policyholders db !! id = Some r →
  emails_unique db →
  is_ok (update_policyholder now id name contact_number email date_of_birth db).1 = true ↔
  (∀ v, supplied contact_number = Some v → Re.re_match phone_pattern v = true) ∧
  (∀ v, supplied email = Some v →
     Re.re_match email_pattern v = true ∧
     ∀ k r', policyholders db !! k = Some r' → k ≠ id → Stored.email r' ≠ v) ∧
  (∀ d, date_of_birth = Some d → ∃ age, py_sub now d = Ok age ∧ 18 * 365 <= days age).
Proof.
  intros Hr Huniq.
  rewrite (update_policyholder_stored _ _ _ _ _ _ _ _ Hr).
  pose proof (policyholder_fields_check_ok now contact_number email date_of_birth) as Hchk.
  destruct (policyholder_assigned_all r name contact_number email date_of_birth)
    as (_ & _ & Hmail & _).
  destruct (policyholder_fields_check _ _ _ _); cbn -[policyholder_written foldl] in *.
  2: { split; [done|]. intros (Hc & He & Hd).
       enough (false = true) by done. apply (proj2 Hchk).
       split; [done|]. split; [|done]. intros v Hv. exact (proj1 (He v Hv)). }
  destruct Hchk as [Hchk _]. destruct (Hchk eq_refl) as (Hc & He & Hd). clear Hchk.
  assert (Hown : ∀ k r', policyholders db !! k = Some r' → k ≠ id →
                         Stored.email r' ≠ Stored.email r).
  { intros k r' Hk Hne Heq. apply Hne. by apply (Huniq k id r' r). }
  destruct (policyholder_update_fields name contact_number email date_of_birth)
    as [|f fs] eqn:Hf; cbn -[policyholder_written foldl] in *.
  - assert (supplied email = None) as Hno.
    { unfold policyholder_update_fields in Hf.
      destruct (supplied name), (supplied contact_number), (supplied email), date_of_birth;
        done. }
    split; [|done]. intros _. split; [done|]. split; [|done].
    intros v Hv. congruence.
  - destruct (email_taken _ _ _) eqn:Htaken; cbn -[policyholder_written foldl].
    + split; [done|]. intros (_ & He' & _).
      enough (email_taken (Stored.email (foldl assign_policyholders r (f :: fs))) id
                (policyholders db) = false) by congruence.
      apply email_taken_spec. intros k r' Hk Hne. rewrite Hmail.
      destruct (supplied email) as [v|]; cbn; [|exact (Hown k r' Hk Hne)].
      exact (proj2 (He' v eq_refl) k r' Hk Hne).
    + split; [|done]. intros _. split; [done|]. split; [|done].
      intros v Hv. split; [by apply He|].
      intros k r' Hk Hne. apply email_taken_spec with (k := k) (r := r') in Htaken; try done.
      rewrite Hmail, Hv in Htaken. done.
Qed.

Lemma update_policyholder_succeeds_iff_witness :
  is_ok (update_policyholder noon 1 (Some "A") (Some "9876543210") None None sample_db).1
    = true.
Proof.
  apply (update_policyholder_succeeds_iff noon 1 (Some "A") (Some "9876543210") None None
           sample_db (policyholder_row ann) eq_refl).
  - intros i j r s Hi Hj _. unfold sample_db in Hi, Hj. cbn [policyholders] in Hi, Hj.
    apply lookup_singleton_Some in Hi as [<- _].
    apply lookup_singleton_Some in Hj as [<- _]. done.
  - split; [by intros v [= <-]|]. split; [by intros v [=]|]. by intros d [=].
Defined.

(** ** The exceptions a caller can see *)





(** ** Consistency of the store is kept *)

Lemma update_policyholder_effect (now : pydate) (id : Z)
    (name contact_number email : option string) (date_of_birth : option pydate) (db : DB) :
  (update_policyholder now id name contact_number email date_of_birth db).2 = db ∨
  ∃ r r', policyholders db !! id = Some r ∧
    email_taken (Stored.email r') id (policyholders db) = false ∧
    (update_policyholder now id name contact_number email date_of_birth db).2 =
      set_policyholders (<[id := r']> (policyholders db)) db.
Proof.
  destruct (policyholders db !! id) as [r|] eqn:Hr.
  - rewrite (update_policyholder_stored _ _ _ _ _ _ _ _ Hr).
    destruct (policyholder_fields_check _ _ _ _); cbn -[foldl]; [|by left].
    destruct (policyholder_update_fields _ _ _ _) as [|f fs]; cbn -[foldl]; [by left|].
    destruct (email_taken _ _ _) eqn:Ht; cbn -[foldl]; [by left|].
    right. by exists r, (foldl assign_policyholders r (f :: fs)).
  - left. by rewrite (update_policyholder_missing _ _ _ _ _ _ _ Hr).
Qed.

Lemma update_policy_effect (id : Z) (type : option string)
    (start_date end_date : option pydate) (coverage_amount premium : option Z) (db : DB) :
  (update_policy id type start_date end_date coverage_amount premium db).2 = db ∨
  ∃ r r', policies db !! id = Some r ∧
    Stored.policyholder_id r' = Stored.policyholder_id r ∧
    (update_policy id type start_date end_date coverage_amount premium db).2 =
      set_policies (<[id := r']> (policies db)) db.
Proof.
  destruct (policies db !! id) as [r|] eqn:Hr.
  - rewrite (update_policy_stored _ _ _ _ _ _ _ _ Hr).
    destruct (policy_assigned_all r type start_date end_date coverage_amount premium)
      as (Hown & _).
    destruct (_validate_policy _ _).1; cbn -[foldl]; [|by left].
    destruct (policy_update_fields _ _ _ _ _) as [|f fs]; cbn -[foldl] in *; [by left|].
    right. by exists r, (foldl assign_policies r (f :: fs)).
  - left. by rewrite (update_policy_missing _ _ _ _ _ _ _ Hr).
Qed.

Lemma update_claim_effect (id : Z) (description : option string) (amount : option Z)
    (status : option ClaimStatus) (db : DB) :
  (update_claim id description amount status db).2 = db ∨
  ∃ r r', claims db !! id = Some r ∧
    Stored.policy_id r' = Stored.policy_id r ∧
    Stored.status r' = default (Stored.status r) (ClaimStatus_value <$> status) ∧
    (update_claim id description amount status db).2 =
      set_claims (<[id := r']> (claims db)) db.
Proof.
  destruct (claims db !! id) as [r|] eqn:Hr.
  - destruct (Claim_of_row id r) as [cl|e] eqn:Hcl.
    + rewrite (update_claim_stored _ _ _ _ _ _ _ Hr Hcl).
      destruct (claim_assigned_all r description amount status)
        as (Hpol & _ & _ & _ & _ & Hst).
      destruct (_validate_claim _ _).1; cbn -[foldl]; [|by left].
      destruct (claim_update_fields _ _ _) as [|f fs]; cbn -[foldl] in *; [by left|].
      right. by exists r, (foldl assign_claims r (f :: fs)).
    + left. by rewrite (update_claim_corrupt _ _ _ _ _ _ _ Hr Hcl).
  - left. by rewrite (update_claim_missing _ _ _ _ _ Hr).
Qed.

Lemma delete_policyholder_effect (id : Z) (db : DB) :
  (delete_policyholder id db).2 = db ∨
  (delete_policyholder id db).2 =
    {| policyholders := delete id (policyholders db);
       policies := policies_not_of id (policies db);
       claims := claims_not_on (policies_of id (policies db)) (claims db) |}.
Proof.
  destruct (policyholders db !! id) as [h|] eqn:Hh.
  - right. by rewrite (delete_policyholder_stored _ _ _ Hh).
  - left. by rewrite (delete_policyholder_missing _ _ Hh).
Qed.

Lemma delete_policy_effect (id : Z) (db : DB) :
  (delete_policy id db).2 = db ∨
  (delete_policy id db).2 =
    {| policyholders := policyholders db;
       policies := delete id (policies db);
       claims := filter (fun kr => Stored.policy_id kr.2 ≠ id) (claims db) |}.
Proof.
  destruct (policies db !! id) as [p|] eqn:Hp.
  - right. by rewrite (delete_policy_stored _ _ _ Hp).
  - left. by rewrite (delete_policy_missing _ _ Hp).
Qed.

Lemma delete_claim_effect (id : Z) (db : DB) :
  (delete_claim id db).2 = db ∨
  (delete_claim id db).2 = set_claims (delete id (claims db)) db.
Proof.
  destruct (claims db !! id) as [c|] eqn:Hc.
  - right. unfold delete_claim, _execute_transaction, tx_bind, delete_claims. cbn.
    by rewrite Hc.
  - left. by rewrite (delete_claim_missing _ _ Hc).
Qed.

Lemma references_hold_policyholders_insert (db : DB) (id : Z) (r : Stored.policyholders) :
  references_hold db →
  references_hold (set_policyholders (<[id := r]> (policyholders db)) db).
Proof.
  intros [Hp Hc]. split; cbn; [|done].
  intros pid p Hpid. apply lookup_insert_is_Some'. right. by apply (Hp pid).
Qed.

Lemma references_hold_policies_insert (db : DB) (id : Z) (r : Stored.policies) :
  references_hold db →
  is_Some (policyholders db !! Stored.policyholder_id r) →
  references_hold (set_policies (<[id := r]> (policies db)) db).
Proof.
  intros [Hp Hc] Hr. split; cbn.
  - intros pid p Hpid. apply lookup_insert_Some in Hpid as [[_ <-] | [_ Hpid]]; [done|].
    by apply (Hp pid).
  - intros cid c Hcid. apply lookup_insert_is_Some'. right. by apply (Hc cid).
Qed.

Lemma references_hold_claims_insert (db : DB) (id : Z) (r : Stored.claims) :
  references_hold db →
  is_Some (policies db !! Stored.policy_id r) →
  references_hold (set_claims (<[id := r]> (claims db)) db).
Proof.
  intros [Hp Hc] Hr. split; cbn; [done|].
  intros cid c Hcid. apply lookup_insert_Some in Hcid as [[_ <-] | [_ Hcid]]; [done|].
  by apply (Hc cid).
Qed.

Lemma references_hold_delete_policyholder (db : DB) (id : Z) :
  references_hold db →
  references_hold
    {| policyholders := delete id (policyholders db);
       policies := policies_not_of id (policies db);
       claims := claims_not_on (policies_of id (policies db)) (claims db) |}.
Proof.
  intros [Hp Hc]. split; cbn.
  - intros pid p Hpid. unfold policies_not_of in Hpid.
    apply map_lookup_filter_Some in Hpid as [Hpid Hown]. cbn in Hown.
    rewrite lookup_delete_ne by done. by apply (Hp pid).
  - intros cid c Hcid. unfold claims_not_on, policies_of in Hcid.
    apply map_lookup_filter_Some in Hcid as [Hcid Hkept]. cbn in Hkept.
    destruct (Hc cid c Hcid) as [p Hpol]. exists p.
    unfold policies_not_of. apply map_lookup_filter_Some. split; [done|]. cbn.
    apply map_lookup_filter_None in Hkept as [Hkept | Hkept]; [congruence|].
    by apply (Hkept p).
Qed.

Lemma references_hold_delete_policy (db : DB) (id : Z) :
  references_hold db →
  references_hold
    {| policyholders := policyholders db;
       policies := delete id (policies db);
       claims := filter (fun kr => Stored.policy_id kr.2 ≠ id) (claims db) |}.
Proof.
  intros [Hp Hc]. split; cbn.
  - intros pid p Hpid. apply lookup_delete_Some in Hpid as [_ Hpid]. by apply (Hp pid).
  - intros cid c Hcid. apply map_lookup_filter_Some in Hcid as [Hcid Hne]. cbn in Hne.
    rewrite lookup_delete_ne by done. by apply (Hc cid).
Qed.

Lemma references_hold_delete_claim (db : DB) (id : Z) :
  references_hold db → references_hold (set_claims (delete id (claims db)) db).
Proof.
  intros [Hp Hc]. split; cbn; [done|].
  intros cid c Hcid. apply lookup_delete_Some in Hcid as [_ Hcid]. by apply (Hc cid).
Qed.

(** X17.  Referential integrity is an invariant of the store: if every
    policy references a stored policyholder and every claim a stored policy,
    the same holds after any create, update or delete, accepted or not. *)
Theorem references_hold_preserved (db : DB) :
  references_hold db →
  (∀ now p, references_hold (create_policyholder now p db).2) ∧
  (∀ p, references_hold (create_policy p db).2) ∧
  (∀ c, references_hold (create_claim c db).2) ∧
  (∀ now id name contact_number email date_of_birth,
     references_hold (update_policyholder now id name contact_number email date_of_birth db).2) ∧
  (∀ id type start_date end_date coverage_amount premium,
     references_hold (update_policy id type start_date end_date coverage_amount premium db).2) ∧
  (∀ id description amount status,
     references_hold (update_claim id description amount status db).2) ∧
  (∀ id, references_hold (delete_policyholder id db).2) ∧
  (∀ id, references_hold (delete_policy id db).2) ∧
  (∀ id, references_hold (delete_claim id db).2).
Proof.
  intros Hdb. repeat match goal with |- _ ∧ _ => split end.
  - intros now p. destruct (create_policyholder_effect now p db) as [[_ ->] | (_ & _ & ->)];
      [done | by apply references_hold_policyholders_insert].
  - intros p. destruct (create_policy_effect p db) as [[_ ->] | (_ & _ & Hh & ->)];
      [done | by apply references_hold_policies_insert].
  - intros c. destruct (create_claim_effect c db) as [[_ ->] | (_ & _ & Hp & ->)];
      [done | by apply references_hold_claims_insert].
  - intros now id name contact_number email date_of_birth.
    destruct (update_policyholder_effect now id name contact_number email date_of_birth db)
      as [-> | (r & r' & _ & _ & ->)];
      [done | by apply references_hold_policyholders_insert].
  - intros id type start_date end_date coverage_amount premium.
    destruct (update_policy_effect id type start_date end_date coverage_amount premium db)
      as [-> | (r & r' & Hr & Hown & ->)]; [done|].
    apply references_hold_policies_insert; [done|]. rewrite Hown.
    by apply (proj1 Hdb id).
  - intros id description amount status.
    destruct (update_claim_effect id description amount status db)
      as [-> | (r & r' & Hr & Hpol & _ & ->)]; [done|].
    apply references_hold_claims_insert; [done|]. rewrite Hpol.
    by apply (proj2 Hdb id).
  - intros id. destruct (delete_policyholder_effect id db) as [-> | ->];
      [done | by apply references_hold_delete_policyholder].
  - intros id. destruct (delete_policy_effect id db) as [-> | ->];
      [done | by apply references_hold_delete_policy].
  - intros id. destruct (delete_claim_effect id db) as [-> | ->];
      [done | by apply references_hold_delete_claim].
Qed.

Lemma references_hold_preserved_witness :
  references_hold (delete_policyholder 1 sample_db).2 ∧
  references_hold (create_claim scratch sample_db).2.
Proof.
  assert (Hdb : references_hold sample_db).
  { split; unfold sample_db; cbn [policyholders policies claims].
    - intros pid p Hp. apply lookup_singleton_Some in Hp as [_ <-]. by eexists.
    - intros cid c Hc. apply lookup_singleton_Some in Hc as [_ <-]. by eexists. }
  destruct (references_hold_preserved sample_db Hdb) as (_ & _ & Hc & _ & _ & _ & Hd & _).
  split; [apply Hd | apply Hc].
Defined.

Lemma emails_unique_insert (db : DB) (id : Z) (r : Stored.policyholders) :
  emails_unique db →
  email_taken (Stored.email r) id (policyholders db) = false →
  emails_unique (set_policyholders (<[id := r]> (policyholders db)) db).
Proof.
  intros Hu Hfree i j a b Hi Hj Heq. cbn in Hi, Hj.
  pose proof (proj1 (email_taken_spec _ _ _) Hfree) as Hother.
  apply lookup_insert_Some in Hi as [[<- <-] | [Hni Hi]];
    apply lookup_insert_Some in Hj as [[<- <-] | [Hnj Hj]]; try done.
  - by destruct (Hother j b Hj).
  - by destruct (Hother i a Hi).
  - by apply (Hu i j a b).
Qed.

Lemma emails_unique_same_policyholders (db db' : DB) :
  policyholders db' = policyholders db → emails_unique db → emails_unique db'.
Proof. unfold emails_unique. by intros ->. Qed.

(** X18.  Uniqueness of emails is an invariant of the store: if no two
    stored policyholders share an email, the same holds after any create,
    update or delete, accepted or not. *)
Theorem emails_unique_preserved (db : DB) :
  emails_unique db →
  (∀ now p, emails_unique (create_policyholder now p db).2) ∧
  (∀ p, emails_unique (create_policy p db).2) ∧
  (∀ c, emails_unique (create_claim c db).2) ∧
  (∀ now id name contact_number email date_of_birth,
     emails_unique (update_policyholder now id name contact_number email date_of_birth db).2) ∧
  (∀ id type start_date end_date coverage_amount premium,
     emails_unique (update_policy id type start_date end_date coverage_amount premium db).2) ∧
  (∀ id description amount status,
     emails_unique (update_claim id description amount status db).2) ∧
  (∀ id, emails_unique (delete_policyholder id db).2) ∧
  (∀ id, emails_unique (delete_policy id db).2) ∧
  (∀ id, emails_unique (delete_claim id db).2).
Proof.
  intros Hdb. repeat match goal with |- _ ∧ _ => split end.
  - intros now p.
    destruct (create_policyholder_effect now p db) as [[_ ->] | (_ & Hun & ->)]; [done|].
    apply emails_unique_insert; [done|].
    by apply policyholders_insert_ok_spec in Hun as [_ ?%negb_true_iff]%andb_true_iff.
  - intros p. destruct (create_policy_effect p db) as [[_ ->] | (_ & _ & _ & ->)]; done.
  - intros c. destruct (create_claim_effect c db) as [[_ ->] | (_ & _ & _ & ->)]; done.
  - intros now id name contact_number email date_of_birth.
    destruct (update_policyholder_effect now id name contact_number email date_of_birth db)
      as [-> | (r & r' & _ & Hfree & ->)]; [done | by apply emails_unique_insert].
  - intros id type start_date end_date coverage_amount premium.
    destruct (update_policy_effect id type start_date end_date coverage_amount premium db)
      as [-> | (r & r' & _ & _ & ->)]; done.
  - intros id description amount status.
    destruct (update_claim_effect id description amount status db)
      as [-> | (r & r' & _ & _ & _ & ->)]; done.
  - intros id. destruct (delete_policyholder_effect id db) as [-> | ->]; [done|].
    intros i j a b Hi Hj. cbn in Hi, Hj.
    apply lookup_delete_Some in Hi as [_ Hi]. apply lookup_delete_Some in Hj as [_ Hj].
    by apply (Hdb i j a b).
  - intros id. destruct (delete_policy_effect id db) as [-> | ->]; done.
  - intros id. destruct (delete_claim_effect id db) as [-> | ->]; done.
Qed.

Lemma emails_unique_preserved_witness :
  emails_unique (create_policyholder noon bob sample_db).2.
Proof.
  assert (Hdb : emails_unique sample_db).
  { intros i j r s Hi Hj _. unfold sample_db in Hi, Hj. cbn [policyholders] in Hi, Hj.
    apply lookup_singleton_Some in Hi as [<- _].
    apply lookup_singleton_Some in Hj as [<- _]. done. }
  apply (emails_unique_preserved sample_db Hdb).
Defined.

Lemma statuses_known_insert (db : DB) (id : Z) (r : Stored.claims) :
  statuses_known db →
  (∃ s, Stored.status r = ClaimStatus_value s) →
  statuses_known (set_claims (<[id := r]> (claims db)) db).
Proof.
  intros Hk Hr cid c Hc. cbn in Hc.
  apply lookup_insert_Some in Hc as [[_ <-] | [_ Hc]]; [done | by apply (Hk cid)].
Qed.

(** X19.  The status column only ever holds the labels of the five
    statuses: if that is so of a store, it is so after any create, update or
    delete, accepted or not.  On such a store [get_claim] never raises (see
    X5). *)
Theorem statuses_known_preserved (db : DB) :
  statuses_known db →
  (∀ now p, statuses_known (create_policyholder now p db).2) ∧
  (∀ p, statuses_known (create_policy p db).2) ∧
  (∀ c, statuses_known (create_claim c db).2) ∧
  (∀ now id name contact_number email date_of_birth,
     statuses_known (update_policyholder now id name contact_number email date_of_birth db).2) ∧
  (∀ id type start_date end_date coverage_amount premium,
     statuses_known (update_policy id type start_date end_date coverage_amount premium db).2) ∧
  (∀ id description amount status,
     statuses_known (update_claim id description amount status db).2) ∧
  (∀ id, statuses_known (delete_policyholder id db).2) ∧
  (∀ id, statuses_known (delete_policy id db).2) ∧
  (∀ id, statuses_known (delete_claim id db).2).
Proof.
  intros Hdb. repeat match goal with |- _ ∧ _ => split end.
  - intros now p.
    destruct (create_policyholder_effect now p db) as [[_ ->] | (_ & _ & ->)]; done.
  - intros p. destruct (create_policy_effect p db) as [[_ ->] | (_ & _ & _ & ->)]; done.
  - intros c. destruct (create_claim_effect c db) as [[_ ->] | (_ & _ & _ & ->)]; [done|].
    apply statuses_known_insert; [done|]. by exists (Claim.status c).
  - intros now id name contact_number email date_of_birth.
    destruct (update_policyholder_effect now id name contact_number email date_of_birth db)
      as [-> | (r & r' & _ & _ & ->)]; done.
  - intros id type start_date end_date coverage_amount premium.
    destruct (update_policy_effect id type start_date end_date coverage_amount premium db)
      as [-> | (r & r' & _ & _ & ->)]; done.
  - intros id description amount status.
    destruct (update_claim_effect id description amount status db)
      as [-> | (r & r' & Hr & _ & Hst & ->)]; [done|].
    apply statuses_known_insert; [done|]. rewrite Hst.
    destruct status as [s|]; cbn; [by exists s | by apply (Hdb id)].
  - intros id. destruct (delete_policyholder_effect id db) as [-> | ->]; [done|].
    intros cid c Hc. cbn in Hc. unfold claims_not_on in Hc.
    apply map_lookup_filter_Some in Hc as [Hc _]. by apply (Hdb cid).
  - intros id. destruct (delete_policy_effect id db) as [-> | ->]; [done|].
    intros cid c Hc. cbn in Hc.
    apply map_lookup_filter_Some in Hc as [Hc _]. by apply (Hdb cid).
  - intros id. destruct (delete_claim_effect id db) as [-> | ->]; [done|].
    intros cid c Hc. cbn in Hc.
    apply lookup_delete_Some in Hc as [_ Hc]. by apply (Hdb cid).
Qed.

Lemma statuses_known_preserved_witness :
  statuses_known (update_claim 100 None None (Some REJECTED) sample_db).2.
Proof.
  assert (Hdb : statuses_known sample_db).
  { intros cid c Hc. unfold sample_db in Hc. cbn [claims] in Hc.
    apply lookup_singleton_Some in Hc as [_ <-]. by exists SUBMITTED. }
  apply (statuses_known_preserved sample_db Hdb).
Defined.

(** ** Create, then delete *)

Lemma DB_eq (db db' : DB) :
  policyholders db = policyholders db' → policies db = policies db' →
  claims db = claims db' → db = db'.
Proof. destruct db, db'; cbn. by intros -> -> ->. Qed.

(** X20.  On a store with referential integrity, deleting what has just
    been created gives back the store as it was before the creation, for a
    policyholder, for a policy and for a claim: the cascade finds nothing
    else to remove. *)
Theorem create_then_delete_restores (db : DB) :
  references_hold db →
  (∀ now p, is_ok (create_policyholder now p db).1 = true →
     delete_policyholder (Policyholder.id p) (create_policyholder now p db).2 = (Ok tt, db)) ∧
  (∀ p, is_ok (create_policy p db).1 = true →
     delete_policy (Policy.id p) (create_policy p db).2 = (Ok tt, db)) ∧
  (∀ c, is_ok (create_claim c db).1 = true →
     delete_claim (Claim.id c) (create_claim c db).2 = (Ok tt, db)).
Proof.
  intros [Hpol Hcl]. split; [|split].
  - intros now p Hok.
    destruct (create_policyholder_effect now p db) as [[Hno _] | (_ & [Hfree _] & ->)];
      [congruence|].
    erewrite delete_policyholder_stored by (cbn; apply lookup_insert_eq).
    f_equal. cbn.
    assert (Hown : ∀ pid q, policies db !! pid = Some q →
                            Stored.policyholder_id q ≠ Policyholder.id p).
    { intros pid q Hq Heq. destruct (Hpol pid q Hq) as [h Hh]. congruence. }
    apply DB_eq; cbn.
    + by apply delete_insert_id.
    + unfold policies_not_of. apply map_filter_id. intros pid q Hq. cbn. by apply (Hown pid).
    + unfold claims_not_on, policies_of. apply map_filter_id. intros cid c Hc. cbn.
      apply map_lookup_filter_None. right. intros q Hq. cbn.
      intros Heq. by apply (Hown (Stored.policy_id c) q Hq).
  - intros p Hok.
    destruct (create_policy_effect p db) as [[Hno _] | (_ & Hfree & _ & ->)]; [congruence|].
    erewrite delete_policy_stored by (cbn; apply lookup_insert_eq).
    f_equal. apply DB_eq; cbn; [done| |].
    + by apply delete_insert_id.
    + apply map_filter_id. intros cid c Hc. cbn. intros Heq.
      destruct (Hcl cid c Hc) as [q Hq]. congruence.
  - intros c Hok.
    destruct (create_claim_effect c db) as [[Hno _] | (_ & Hfree & _ & ->)]; [congruence|].
    unfold delete_claim, _execute_transaction, tx_bind, delete_claims. cbn.
    rewrite lookup_insert_eq. cbn. f_equal.
    apply DB_eq; cbn; [done|done|]. by apply delete_insert_id.
Qed.

Lemma create_then_delete_restores_witness :
  delete_policy 11 (create_policy home sample_db).2 = (Ok tt, sample_db).
Proof.
  assert (Hdb : references_hold sample_db).
  { split; unfold sample_db; cbn [policyholders policies claims].
    - intros pid p Hp. apply lookup_singleton_Some in Hp as [_ <-]. by eexists.
    - intros cid c Hc. apply lookup_singleton_Some in Hc as [_ <-]. by eexists. }
  destruct (create_then_delete_restores sample_db Hdb) as (_ & Hp & _).
  apply (Hp home). reflexivity.
Defined.

(** ** What the two patterns accept *)

Lemma matches_Star_Class (p : ascii → bool) (w : list ascii) :
  Re.matches (Re.Star (Re.Class p)) w ↔ Forall (fun c => p c = true) w.
Proof.
  split.
  - intros H. remember (Re.Star (Re.Class p)) as r eqn:Hr.
    induction H; try done; injection Hr as ->.
    apply matches_Class in H as (c & -> & Hc). cbn.
    constructor; [done | by apply IHmatches2].
  - induction 1 as [|c w Hc _ IH]; [constructor|].
    apply (Re.MStarApp _ [c] w); [by constructor | done].
Qed.

Lemma matches_Plus_Class (p : ascii → bool) (w : list ascii) :
  Re.matches (Re.Plus (Re.Class p)) w ↔ w ≠ [] ∧ Forall (fun c => p c = true) w.
Proof.
  unfold Re.Plus. rewrite matches_Cat. split.
  - intros (u & v & -> & (c & -> & Hc)%matches_Class & Hv%matches_Star_Class).
    split; [done | by constructor].
  - intros [Hne Hall]. destruct Hall as [|c w Hc Hw]; [done|].
    exists [c], w. split; [done|]. split; [by constructor | by apply matches_Star_Class].
Qed.

Lemma matches_Opt_char (a : ascii) (w : list ascii) :
  Re.matches (Re.Opt (Re.Class (is_char a))) w ↔ w = [] ∨ w = [a].
Proof.
  unfold Re.Opt. rewrite matches_Alt, matches_Class, matches_Eps. unfold is_char. split.
  - intros [(c & -> & Hc%Ascii.eqb_eq) | ->]; [right; by subst | by left].
  - intros [-> | ->]; [by right | left]. exists a. split; [done | apply Ascii.eqb_refl].
Qed.

Lemma matches_Rep_Class (n : nat) (p : ascii → bool) (w : list ascii) :
  Re.matches (Re.Rep n (Re.Class p)) w ↔ List.length w = n ∧ Forall (fun c => p c = true) w.
Proof.
  revert w. induction n as [|n IH]; intros w; cbn.
  - rewrite matches_Eps. split; [by intros -> | intros [Hl _]; by destruct w].
  - rewrite matches_Cat. split.
    + intros (u & v & -> & (c & -> & Hc)%matches_Class & [Hl Hv]%IH).
      cbn. split; [by rewrite Hl | by constructor].
    + intros [Hl Hall]. destruct Hall as [|c w Hc Hw]; [done|].
      exists [c], w. split; [done|]. split; [by constructor|].
      apply IH. split; [by injection Hl | done].
Qed.

Lemma matches_RepOpt_Class (n : nat) (p : ascii → bool) (w : list ascii) :
  Re.matches (Re.RepOpt n (Re.Class p)) w ↔
  (List.length w ≤ n)%nat ∧ Forall (fun c => p c = true) w.
Proof.
  revert w. induction n as [|n IH]; intros w; cbn.
  - rewrite matches_Eps. split; [by intros -> | intros [Hl _]; destruct w; [done | cbn in Hl; lia]].
  - rewrite matches_Cat. unfold Re.Opt. split.
    + intros (u & v & -> & Hu & [Hl Hv]%IH).
      apply matches_Alt in Hu as [(c & -> & Hc)%matches_Class | ->%matches_Eps]; cbn.
      * split; [lia | by constructor].
      * split; [lia | done].
    + intros [Hl Hall]. destruct Hall as [|c w Hc Hw].
      * exists [], []. split; [done|]. split; [apply Re.MAltR; constructor|].
        apply IH. split; [cbn; lia | done].
      * exists [c], w. split; [done|]. split; [apply Re.MAltL; by constructor|].
        apply IH. cbn in Hl. split; [lia | done].
Qed.

Lemma matches_RepRange_Class (m n : nat) (p : ascii → bool) (w : list ascii) :
  (m ≤ n)%nat →
  Re.matches (Re.RepRange m n (Re.Class p)) w ↔
  (m ≤ List.length w ≤ n)%nat ∧ Forall (fun c => p c = true) w.
Proof.
  intros Hmn. unfold Re.RepRange. rewrite matches_Cat. split.
  - intros (u & v & -> & [Hu Hpu]%matches_Rep_Class & [Hv Hpv]%matches_RepOpt_Class).
    rewrite length_app. split; [lia | by apply Forall_app].
  - intros [Hl Hall]. exists (take m w), (drop m w).
    split; [by rewrite take_drop|]. split.
    + apply matches_Rep_Class. split; [rewrite length_take; lia | by apply Forall_take].
    + apply matches_RepOpt_Class. split; [rewrite length_drop; lia | by apply Forall_drop].
Qed.

Lemma not_at_spec (c : ascii) : not_at c = true ↔ c ≠ "@"%char.
Proof.
  unfold not_at. rewrite negb_true_iff. split.
  - intros H ->. by rewrite Ascii.eqb_refl in H.
  - intros H. by apply Ascii.eqb_neq.
Qed.

Lemma matches_at_free (w : list ascii) :
  Re.matches (Re.Plus (Re.Class not_at)) w ↔ at_free w.
Proof.
  rewrite matches_Plus_Class. unfold at_free.
  assert (Forall (fun c => not_at c = true) w ↔ Forall (fun c => c ≠ "@"%char) w) as ->; [|done].
  split; intros H; (eapply Forall_impl; [exact H|]); intros c; apply not_at_spec.
Qed.

Lemma chars_append (s t : string) : chars (String.append s t) = chars s ++ chars t.
Proof.
  unfold chars. induction s as [|c s IH]; [reflexivity|].
  change (c :: list_ascii_of_string (String.append s t) =
          c :: (list_ascii_of_string s ++ list_ascii_of_string t)).
  by rewrite IH.
Qed.

(** X21.  [_validate_email] accepts exactly the strings that begin with a
    non-empty run without [@], then [@], then a non-empty run without [@],
    then a dot, then a non-empty run without [@]; whatever follows is not
    looked at, so any continuation of an accepted email is accepted too. *)
Theorem _validate_email_accepts (email : string) :
  (_validate_email email = Ok tt ↔
     ∃ a b c rest,
       chars email = a ++ "@"%char :: b ++ "."%char :: c ++ rest ∧
       at_free a ∧ at_free b ∧ at_free c) ∧
  (_validate_email email = Ok tt →
     ∀ more, _validate_email (String.append email more) = Ok tt).
Proof.
  assert (Hspec : ∀ s, _validate_email s = Ok tt ↔
     ∃ a b c rest,
       chars s = a ++ "@"%char :: b ++ "."%char :: c ++ rest ∧
       at_free a ∧ at_free b ∧ at_free c).
  { intros s. unfold _validate_email.
    destruct (Re.re_match email_pattern s) eqn:Hm.
    - split; [intros _|done].
      apply re_match_spec in Hm as (u & rest & Hs & Hu & _). cbn in Hu.
      apply matches_Cat in Hu as (a & u1 & -> & Ha%matches_at_free & Hu).
      apply matches_Cat in Hu as (x & u2 & -> & (cx & -> & Hx)%matches_Class & Hu).
      apply matches_Cat in Hu as (b & u3 & -> & Hb%matches_at_free & Hu).
      apply matches_Cat in Hu as (y & c & -> & (cy & -> & Hy)%matches_Class & Hc%matches_at_free).
      apply Ascii.eqb_eq in Hx as <-. apply Ascii.eqb_eq in Hy as <-.
      exists a, b, c, rest. split; [|done].
      unfold chars. rewrite Hs. by rewrite <- !app_assoc.
    - split; [done|]. intros (a & b & c & rest & Hs & Ha & Hb & Hc).
      enough (Re.re_match email_pattern s = true) by congruence.
      apply re_match_spec. exists (a ++ "@"%char :: b ++ "."%char :: c), rest.
      split; [unfold chars in Hs; rewrite Hs; by list_simplifier|].
      split; [|done]. cbn.
      apply Re.MCat; [by apply matches_at_free|].
      apply (Re.MCat _ _ ["@"%char]); [by constructor|].
      apply Re.MCat; [by apply matches_at_free|].
      apply (Re.MCat _ _ ["."%char]); [by constructor|].
      by apply matches_at_free. }
  split; [apply Hspec|].
  intros (a & b & c & rest & Hs & Habc)%Hspec more. apply Hspec.
  exists a, b, c, (rest ++ chars more). split; [|done].
  rewrite chars_append, Hs. by list_simplifier.
Qed.

Lemma _validate_email_accepts_witness :
  _validate_email (String.append "ann@example.org" "@@ not an address") = Ok tt.
Proof. apply (_validate_email_accepts "ann@example.org"). reflexivity. Defined.

(** X22.  [_validate_phone_number] accepts exactly the strings made of an
    optional [+], an optional [1], 9 to 15 digits, and an optional final
    newline.  An accepted contact number therefore has 9 to 18 characters
    and fits the 20 characters of its column. *)
Theorem _validate_phone_number_accepts (phone : string) :
  (_validate_phone_number phone = Ok tt ↔
     ∃ plus one digits newline,
       chars phone = plus ++ one ++ digits ++ newline ∧
       (plus = [] ∨ plus = ["+"%char]) ∧
       (one = [] ∨ one = ["1"%char]) ∧
       (9 ≤ List.length digits ≤ 15)%nat ∧ Forall (fun c => digit c = true) digits ∧
       (newline = [] ∨ newline = ["010"%char])) ∧
  (_validate_phone_number phone = Ok tt → (9 ≤ List.length (chars phone) ≤ 18)%nat).
Proof.
  assert (Hend : ∀ v, Re.at_dollar v = true ↔ v = [] ∨ v = ["010"%char]).
  { intros [|c [|c' v]]; cbn.
    - split; [by left | done].
    - rewrite Ascii.eqb_eq. split; [intros ->; by right | by intros [? | [= ->]]].
    - split; [done | by intros [? | ?]]. }
  assert (Hspec : _validate_phone_number phone = Ok tt ↔
     ∃ plus one digits newline,
       chars phone = plus ++ one ++ digits ++ newline ∧
       (plus = [] ∨ plus = ["+"%char]) ∧
       (one = [] ∨ one = ["1"%char]) ∧
       (9 ≤ List.length digits ≤ 15)%nat ∧ Forall (fun c => digit c = true) digits ∧
       (newline = [] ∨ newline = ["010"%char])).
  { unfold _validate_phone_number.
    destruct (Re.re_match phone_pattern phone) eqn:Hm.
    - split; [intros _|done].
      apply re_match_spec in Hm as (u & nl & Hs & Hu & Hnl). cbn in Hu, Hnl.
      apply matches_Cat in Hu as (pl & u1 & -> & Hpl%matches_Opt_char & Hu).
      apply matches_Cat in Hu as (on & ds & -> & Hon%matches_Opt_char & Hds).
      apply matches_RepRange_Class in Hds as [Hlen Hall]; [|lia].
      exists pl, on, ds, nl. split; [unfold chars; rewrite Hs; by rewrite <- !app_assoc|].
      split; [done|]. split; [done|]. split; [done|]. split; [done|]. by apply Hend.
    - split; [done|]. intros (pl & on & ds & nl & Hs & Hpl & Hon & Hlen & Hall & Hnl).
      enough (Re.re_match phone_pattern phone = true) by congruence.
      apply re_match_spec. exists (pl ++ on ++ ds), nl.
      split; [unfold chars in Hs; rewrite Hs; by rewrite <- !app_assoc|].
      split; [|by apply Hend]. cbn.
      apply Re.MCat; [by apply matches_Opt_char|].
      apply Re.MCat; [by apply matches_Opt_char|].
      apply matches_RepRange_Class; [lia | done]. }
  split; [exact Hspec|].
  intros (pl & on & ds & nl & -> & Hpl & Hon & Hlen & _ & Hnl)%Hspec.
  rewrite !length_app.
  destruct Hpl as [-> | ->], Hon as [-> | ->], Hnl as [-> | ->]; cbn; lia.
Qed.

Lemma _validate_phone_number_accepts_witness :
  (9 ≤ List.length (chars "+14155550123") ≤ 18)%nat.
Proof. apply (_validate_phone_number_accepts "+14155550123"). reflexivity. Defined.
